(** * youtube-caption-extractor: caption-track selection and transcript parsing

    A shallow embedding of [src/index.ts] and of its sibling revision
    (the file with [getCaptionDownloadUrl]), with the parts of the JavaScript
    run time the two files rely on: strings as sequences of UTF-16 code
    units, the backtracking regular-expression matcher, [JSON.parse],
    truthiness, and the effects [fetch], [console.warn] and [throw]. *)

From Stdlib Require Import String Ascii.
From Stdlib Require Import NArith ZArith Bool Arith Lia List.
Import ListNotations.

Set Implicit Arguments.

(* ================================================================= *)
(** ** JavaScript strings *)

Module JS.

(** A string is its sequence of 16-bit code units. *)
Definition codeunit := N.
Definition jsstring := list codeunit.

(** [js s] is the string whose code units are the bytes of the literal [s].
    A double quote cannot stand inside a literal of this file, so [jsq] reads
    every apostrophe of its literal as the double quote (code unit 34); no
    literal below needs an apostrophe of its own. *)
Definition js (s : string) : jsstring :=
  map N_of_ascii (list_ascii_of_string s).
Arguments js s%_string.

Definition dq : codeunit := 34%N.

(** [cu c] is the code unit of the ASCII character [c]. *)
Definition cu (c : ascii) : codeunit := N_of_ascii c.
Arguments cu c%_char.

Definition jsq (s : string) : jsstring :=
  map (fun c => if N.eqb c 39 then dq else c) (js s).
Arguments jsq s%_string.

(** [a === b] on two strings. *)
Fixpoint str_eqb (a b : jsstring) : bool :=
  match a, b with
  | [], [] => true
  | x :: a', y :: b' => N.eqb x y && str_eqb a' b'
  | _, _ => false
  end.

(** A string is truthy unless it is empty. *)
Definition truthy_str (s : jsstring) : bool :=
  match s with [] => false | _ :: _ => true end.

(** [s.startsWith(p)], the test behind every search below. *)
Fixpoint starts_with (p s : jsstring) : bool :=
  match p, s with
  | [], _ => true
  | x :: p', y :: s' => N.eqb x y && starts_with p' s'
  | _ :: _, [] => false
  end.

(** [s.indexOf(p)]: the first position at which [p] occurs. *)
Fixpoint index_of (p s : jsstring) : option nat :=
  if starts_with p s then Some 0
  else match s with
       | [] => None
       | _ :: s' => option_map S (index_of p s')
       end.

(** [s.includes(p)]. *)
Definition includes (p s : jsstring) : bool :=
  match index_of p s with Some _ => true | None => false end.

(** [s.replace(p, r)] with a string pattern: only the first occurrence is
    replaced ([r] holds no dollar sign in this program). *)
Definition replace_str (p r s : jsstring) : jsstring :=
  match index_of p s with
  | Some i => firstn i s ++ r ++ skipn (i + length p) s
  | None => s
  end.

(** [s.split(sep)] for a non-empty separator.  Every round removes at least
    one code unit, so [length s] rounds are enough. *)
Fixpoint split_fuel (n : nat) (sep s : jsstring) : list jsstring :=
  match n with
  | O => [s]
  | S n' =>
      match index_of sep s with
      | None => [s]
      | Some i => firstn i s :: split_fuel n' sep (skipn (i + length sep) s)
      end
  end.

Definition split (sep s : jsstring) : list jsstring :=
  split_fuel (length s) sep s.

(** White space and line terminators of ECMAScript: what [trim] removes and
    what the class [\s] matches. *)
Definition is_line_terminator (c : codeunit) : bool :=
  (N.eqb c 10 || N.eqb c 13 || N.eqb c 8232 || N.eqb c 8233)%N.

Definition is_space (c : codeunit) : bool :=
  (N.eqb c 9 || N.eqb c 11 || N.eqb c 12 || N.eqb c 32 || N.eqb c 160
   || N.eqb c 5760 || (N.leb 8192 c && N.leb c 8202) || N.eqb c 8239
   || N.eqb c 8287 || N.eqb c 12288 || N.eqb c 65279
   || is_line_terminator c)%N.

Fixpoint trim_start (s : jsstring) : jsstring :=
  match s with
  | c :: s' => if is_space c then trim_start s' else s
  | [] => []
  end.

Definition trim (s : jsstring) : jsstring :=
  rev (trim_start (rev (trim_start s))).

End JS.

(* ================================================================= *)
(** ** Regular expressions *)

Module Regex.
Import JS.

(** The pattern syntax the program uses: single code-unit classes,
    sequence, alternation ([a|b], left alternative first), the greedy and
    the lazy star ([a*], [a*?]), numbered capture groups and the end-of-input
    assertion [$] (none of the patterns has the [m] flag). *)
Inductive regex : Type :=
| Eps
| Chr (p : codeunit -> bool)
| Seq (a b : regex)
| Alt (a b : regex)
| Star (greedy : bool) (a : regex)
| Group (i : nat) (a : regex)
| Eoi.

(** [a+], [a+?] and [a?]. *)
Definition Plus (greedy : bool) (a : regex) : regex := Seq a (Star greedy a).
Definition Opt (a : regex) : regex := Alt a Eps.

(** A literal run of code units. *)
Fixpoint Lit (l : jsstring) : regex :=
  match l with
  | [] => Eps
  | c :: l' => Seq (Chr (N.eqb c)) (Lit l')
  end.

(** The classes of the program's patterns. *)
Definition any_char (c : codeunit) : bool := negb (is_line_terminator c).
Definition digit (c : codeunit) : bool := (N.leb 48 c && N.leb c 57)%N.
Definition digit_or_dot (c : codeunit) : bool := digit c || N.eqb c 46.
Definition other_than (x c : codeunit) : bool := negb (N.eqb c x).
(** A letter under the [i] flag: the two ASCII cases of [lower] (for [a],
    [m] and [p] no other code unit canonicalizes to the same upper case). *)
Definition letter_ci (lower c : codeunit) : bool :=
  (N.eqb c lower || N.eqb c (lower - 32))%N.

(** Captures: the latest text of each group that took part in the match. *)
Definition captures := list (nat * jsstring).

Fixpoint capture (i : nat) (c : captures) : option jsstring :=
  match c with
  | [] => None
  | (j, s) :: c' => if Nat.eqb i j then Some s else capture i c'
  end.

(** The matcher, in continuation-passing style as in the language
    definition: [rx r s c k] matches [r] at the head of [s] and hands the
    rest of the input to [k]; when [k] fails the matcher backtracks. *)
Definition mcont := jsstring -> captures -> option (jsstring * captures).
Definition matcher := jsstring -> captures -> mcont -> option (jsstring * captures).

(** The loop of a star over the matcher [atom] of its body.  The greedy
    star tries one more iteration before it tries the continuation, the lazy
    star the other way round.  An iteration that consumes nothing is
    refused, so [length s] rounds are enough.  (No pattern of the program has
    a group under a star, so captures need no reset between iterations.) *)
Fixpoint star_loop (greedy : bool) (atom : matcher) (k : mcont) (n : nat)
  (s : jsstring) (c : captures) : option (jsstring * captures) :=
  match n with
  | O => k s c
  | S n' =>
      let again (_ : unit) :=
        atom s c (fun s1 c1 =>
                    if length s1 <? length s
                    then star_loop greedy atom k n' s1 c1
                    else None) in
      if greedy then
        match again tt with
        | Some m => Some m
        | None => k s c
        end
      else
        match k s c with
        | Some m => Some m
        | None => again tt
        end
  end.

Fixpoint rx (r : regex) : matcher :=
  match r with
  | Eps => fun s c k => k s c
  | Chr p => fun s c k =>
      match s with
      | x :: s' => if p x then k s' c else None
      | [] => None
      end
  | Seq a b => fun s c k => rx a s c (fun s1 c1 => rx b s1 c1 k)
  | Alt a b => fun s c k =>
      match rx a s c k with
      | Some m => Some m
      | None => rx b s c k
      end
  | Group i a => fun s c k =>
      rx a s c (fun s1 c1 => k s1 ((i, firstn (length s - length s1) s) :: c1))
  | Eoi => fun s c k => match s with [] => k s c | _ :: _ => None end
  | Star greedy a => fun s c k => star_loop greedy (rx a) k (length s) s c
  end.

(** The star over a single class, by recursion on the input: what
    [star_loop] computes for the body [Chr p] (lemma [star_loop_chr]). *)
Fixpoint star_chr (greedy : bool) (p : codeunit -> bool) (k : mcont)
  (s : jsstring) (c : captures) : option (jsstring * captures) :=
  match s with
  | [] => k s c
  | x :: s' =>
      if p x then
        if greedy then
          match star_chr greedy p k s' c with
          | Some m => Some m
          | None => k s c
          end
        else
          match k s c with
          | Some m => Some m
          | None => star_chr greedy p k s' c
          end
      else k s c
  end.

(** What [exec] reports: where the match starts, the matched text, the
    input after it, and the captures. *)
Record rmatch : Type := mkMatch {
  m_index : nat;
  m_text : jsstring;
  m_rest : jsstring;
  m_caps : captures
}.

Definition match_here (r : regex) (s : jsstring) : option rmatch :=
  match rx r s [] (fun s1 c1 => Some (s1, c1)) with
  | Some (s1, c1) => Some (mkMatch 0 (firstn (length s - length s1) s) s1 c1)
  | None => None
  end.

Definition shift (m : rmatch) : rmatch :=
  mkMatch (S (m_index m)) (m_text m) (m_rest m) (m_caps m).

Fixpoint shifts (n : nat) (m : rmatch) : rmatch :=
  match n with O => m | S n' => shift (shifts n' m) end.

(** [r.exec(s)] for a pattern without the [g] flag, and [s.match(r)] alike:
    the leftmost start position at which the pattern matches. *)
Fixpoint exec (r : regex) (s : jsstring) : option rmatch :=
  match match_here r s with
  | Some m => Some m
  | None =>
      match s with
      | [] => None
      | _ :: s' => option_map shift (exec r s')
      end
  end.

(** [m[i]]: the text of group [i].  Every group of the program's patterns
    takes part in every match, so the empty default is never read. *)
Definition group (i : nat) (m : rmatch) : jsstring :=
  match capture i (m_caps m) with Some s => s | None => [] end.

(** [s.replace(r, by)] for a pattern without the [g] flag. *)
Definition replace_first (r : regex) (by_ : jsstring) (s : jsstring) : jsstring :=
  match exec r s with
  | Some m => firstn (m_index m) s ++ by_ ++ m_rest m
  | None => s
  end.

(** [s.replace(r, by)] for a pattern with the [g] flag: the matches are
    found from left to right, each search resuming where the previous match
    ended (one code unit further after an empty match). *)
Fixpoint replace_all_fuel (n : nat) (r : regex) (by_ : jsstring) (s : jsstring)
  : jsstring :=
  match n with
  | O => s
  | S n' =>
      match exec r s with
      | None => s
      | Some m =>
          firstn (m_index m) s ++ by_ ++
          match m_text m, m_rest m with
          | [], [] => []
          | [], x :: rest => x :: replace_all_fuel n' r by_ rest
          | _ :: _, rest => replace_all_fuel n' r by_ rest
          end
      end
  end.

Definition replace_all (r : regex) (by_ : jsstring) (s : jsstring) : jsstring :=
  replace_all_fuel (S (length s)) r by_ s.

End Regex.

(* ================================================================= *)
(** ** Values and [JSON.parse] *)

Module Json.
Import JS.

(** The values [JSON.parse] builds.  A number is kept as the decimal
    numeral it was written as, [m * 10^e]; an object keeps its members in
    the order of the text. *)
#[local] Unset Elimination Schemes.
Inductive value : Type :=
| VNull
| VBool (b : bool)
| VNum (m e : Z)
| VStr (s : jsstring)
| VArr (l : list value)
| VObj (fs : list (jsstring * value)).
#[local] Set Elimination Schemes.

(** A numeral denotes the Number zero when its value rounds to zero: when it
    is zero or at most [2^-1075], half the least positive double (a tie goes
    to the even neighbour, which is zero).  (Past its 20th significant digit
    the language lets an implementation round a numeral before converting
    it; that freedom is not modelled.) *)
Definition num_is_zero (m e : Z) : bool :=
  (Z.eqb m 0
   || (Z.ltb e 0 && Z.leb (Z.abs m * 2 ^ 1075) (10 ^ (- e))))%Z.

(** [ToBoolean] on a value, and on a value that may be [undefined]. *)
Definition truthy (v : value) : bool :=
  match v with
  | VNull => false
  | VBool b => b
  | VNum m e => negb (num_is_zero m e)
  | VStr s => truthy_str s
  | VArr _ | VObj _ => true
  end.

Definition truthy_opt (v : option value) : bool :=
  match v with Some v' => truthy v' | None => false end.

(** Member lookup in an object: [JSON.parse] lets a later member of the
    same name overwrite an earlier one. *)
Fixpoint lookup (key : jsstring) (fs : list (jsstring * value)) : option value :=
  match fs with
  | [] => None
  | (k, v) :: fs' =>
      match lookup key fs' with
      | Some v' => Some v'
      | None => if str_eqb k key then Some v else None
      end
  end.

(** *** The parser *)

Inductive presult (A : Type) : Type :=
| Parsed (a : A) (rest : jsstring)
| SyntaxErr
| OutOfFuel.
Arguments SyntaxErr {A}.
Arguments OutOfFuel {A}.

Definition pbind {A B} (x : presult A) (f : A -> jsstring -> presult B)
  : presult B :=
  match x with
  | Parsed a rest => f a rest
  | SyntaxErr => SyntaxErr
  | OutOfFuel => OutOfFuel
  end.

(** JSON white space: tab, line feed, carriage return and space. *)
Definition json_ws (c : codeunit) : bool :=
  (N.eqb c 9 || N.eqb c 10 || N.eqb c 13 || N.eqb c 32)%N.

Fixpoint skip_ws (s : jsstring) : jsstring :=
  match s with
  | c :: s' => if json_ws c then skip_ws s' else s
  | [] => []
  end.

Definition hex_val (c : codeunit) : option N :=
  (if N.leb 48 c && N.leb c 57 then Some (c - 48)
   else if N.leb 65 c && N.leb c 70 then Some (c - 55)
   else if N.leb 97 c && N.leb c 102 then Some (c - 87)
   else None)%N.

Definition hex4 (a b c d : codeunit) : option codeunit :=
  match hex_val a, hex_val b, hex_val c, hex_val d with
  | Some x, Some y, Some z, Some w => Some (((x * 16 + y) * 16 + z) * 16 + w)%N
  | _, _, _, _ => None
  end.

(** The characters of a string after its opening quote, up to and with the
    closing quote.  Control characters below U+0020 may not appear raw. *)
Fixpoint parse_chars (s : jsstring) : presult jsstring :=
  match s with
  | [] => SyntaxErr
  | c :: s1 =>
      if N.eqb c dq then Parsed [] s1
      else if N.eqb c (cu "\") then
        match s1 with
        | [] => SyntaxErr
        | e :: s2 =>
            let simple (x : codeunit) :=
              pbind (parse_chars s2) (fun t r => Parsed (x :: t) r) in
            if N.eqb e dq then simple dq
            else if N.eqb e (cu "\") then simple (cu "\")
            else if N.eqb e (cu "/") then simple (cu "/")
            else if N.eqb e (cu "b") then simple 8%N
            else if N.eqb e (cu "f") then simple 12%N
            else if N.eqb e (cu "n") then simple 10%N
            else if N.eqb e (cu "r") then simple 13%N
            else if N.eqb e (cu "t") then simple 9%N
            else if N.eqb e (cu "u") then
              match s2 with
              | h1 :: h2 :: h3 :: h4 :: s3 =>
                  match hex4 h1 h2 h3 h4 with
                  | Some x => pbind (parse_chars s3) (fun t r => Parsed (x :: t) r)
                  | None => SyntaxErr
                  end
              | _ => SyntaxErr
              end
            else SyntaxErr
        end
      else if N.ltb c 32 then SyntaxErr
      else pbind (parse_chars s1) (fun t r => Parsed (c :: t) r)
  end.

(** Digits, as the value they denote and how many there were. *)
Fixpoint digits (acc : Z) (count : nat) (s : jsstring) : Z * nat * jsstring :=
  match s with
  | c :: s' =>
      if (N.leb 48 c && N.leb c 57)%N
      then digits (acc * 10 + Z.of_N (c - 48)) (S count) s'
      else (acc, count, s)
  | [] => (acc, count, s)
  end.

(** A number: [-? (0 | [1-9][0-9]* ) (. [0-9]+)? ([eE] [+-]? [0-9]+)?]. *)

(** The optional minus sign. *)
Definition take_sign (s : jsstring) : bool * jsstring :=
  match s with
  | c :: s' => if N.eqb c (cu "-") then (true, s') else (false, s)
  | [] => (false, s)
  end.

(** The integer part: a lone zero, or a digit from 1 to 9 and more digits. *)
Definition int_part (s : jsstring) : option (Z * jsstring) :=
  match s with
  | c :: s' =>
      if N.eqb c (cu "0") then Some (0%Z, s')
      else if (N.leb 49 c && N.leb c 57)%N then
        let '(n, _, r) := digits (Z.of_N (c - 48)) 1 s' in Some (n, r)
      else None
  | [] => None
  end.

(** The optional fraction after the integer part [n]: all the digits read
    as one integer, and the number of digits after the point. *)
Definition frac_part (n : Z) (s : jsstring) : option (Z * nat * jsstring) :=
  match s with
  | c :: s' =>
      if N.eqb c (cu ".") then
        let '(m, k, r) := digits n 0 s' in
        match k with O => None | S _ => Some (m, k, r) end
      else Some (n, O, s)
  | [] => Some (n, O, s)
  end.

Definition exp_sign (s : jsstring) : bool * jsstring :=
  match s with
  | d :: s' =>
      if N.eqb d (cu "-") then (true, s')
      else if N.eqb d (cu "+") then (false, s')
      else (false, s)
  | [] => (false, s)
  end.

(** The optional exponent. *)
Definition exp_part (s : jsstring) : option (Z * jsstring) :=
  match s with
  | c :: s' =>
      if (N.eqb c (cu "e") || N.eqb c (cu "E"))%bool then
        let (neg, s1) := exp_sign s' in
        let '(x, j, r) := digits 0 0 s1 in
        match j with
        | O => None
        | S _ => Some (if neg then (- x)%Z else x, r)
        end
      else Some (0%Z, s)
  | [] => Some (0%Z, s)
  end.

Definition parse_number (s : jsstring) : presult value :=
  let (neg, s0) := take_sign s in
  match int_part s0 with
  | None => SyntaxErr
  | Some (n, s1) =>
      match frac_part n s1 with
      | None => SyntaxErr
      | Some (m, k, s2) =>
          match exp_part s2 with
          | None => SyntaxErr
          | Some (x, s3) =>
              Parsed (VNum (if neg then (- m)%Z else m) (x - Z.of_nat k)) s3
          end
      end
  end.

(** A value, the elements of a non-empty array after its bracket, and the
    members of a non-empty object after its brace.  The fuel bounds the
    number of nested calls; [JSON_parse] below supplies enough of it. *)
Fixpoint parse_value (n : nat) (s : jsstring) {struct n} : presult value :=
  match n with
  | O => OutOfFuel
  | S n' =>
      match skip_ws s with
      | [] => SyntaxErr
      | c :: s1 =>
          if N.eqb c (cu "{") then
            match skip_ws s1 with
            | d :: s2 =>
                if N.eqb d (cu "}") then Parsed (VObj []) s2
                else pbind (parse_members n' s1) (fun fs r => Parsed (VObj fs) r)
            | [] => SyntaxErr
            end
          else if N.eqb c (cu "[") then
            match skip_ws s1 with
            | d :: s2 =>
                if N.eqb d (cu "]") then Parsed (VArr []) s2
                else pbind (parse_elements n' s1) (fun vs r => Parsed (VArr vs) r)
            | [] => SyntaxErr
            end
          else if N.eqb c dq then
            pbind (parse_chars s1) (fun t r => Parsed (VStr t) r)
          else if starts_with (js "true") (c :: s1) then
            Parsed (VBool true) (skipn 4 (c :: s1))
          else if starts_with (js "false") (c :: s1) then
            Parsed (VBool false) (skipn 5 (c :: s1))
          else if starts_with (js "null") (c :: s1) then
            Parsed VNull (skipn 4 (c :: s1))
          else parse_number (c :: s1)
      end
  end

with parse_elements (n : nat) (s : jsstring) {struct n} : presult (list value) :=
  match n with
  | O => OutOfFuel
  | S n' =>
      pbind (parse_value n' s) (fun v r =>
        match skip_ws r with
        | c :: r1 =>
            if N.eqb c (cu ",") then
              pbind (parse_elements n' r1) (fun vs r2 => Parsed (v :: vs) r2)
            else if N.eqb c (cu "]") then Parsed [v] r1
            else SyntaxErr
        | [] => SyntaxErr
        end)
  end

with parse_members (n : nat) (s : jsstring) {struct n}
  : presult (list (jsstring * value)) :=
  match n with
  | O => OutOfFuel
  | S n' =>
      match skip_ws s with
      | c :: s1 =>
          if N.eqb c dq then
            pbind (parse_chars s1) (fun key r =>
              match skip_ws r with
              | d :: r1 =>
                  if N.eqb d (cu ":") then
                    pbind (parse_value n' r1) (fun v r2 =>
                      match skip_ws r2 with
                      | x :: r3 =>
                          if N.eqb x (cu ",") then
                            pbind (parse_members n' r3)
                                  (fun fs r4 => Parsed ((key, v) :: fs) r4)
                          else if N.eqb x (cu "}") then Parsed [(key, v)] r3
                          else SyntaxErr
                      | [] => SyntaxErr
                      end)
                  else SyntaxErr
              | [] => SyntaxErr
              end)
          else SyntaxErr
      | [] => SyntaxErr
      end
  end.

(** Two facts about a parser result on the input [s]: what is left after a
    parsed item is shorter than [s], and the fuel did not run out. *)
Definition shorter {A} (s : jsstring) (x : presult A) : Prop :=
  match x with
  | Parsed _ rest => length rest < length s
  | _ => True
  end.

Definition fueled {A} (x : presult A) : Prop :=
  match x with
  | OutOfFuel => False
  | _ => True
  end.

(** [JSON.parse(text)]: one value between optional white space, or the
    [SyntaxError] it throws ([None]).  The fuel never runs out (lemma
    [JSON_parse_fueled]). *)
Definition JSON_parse (text : jsstring) : option value :=
  match parse_value (2 * length text + 1) text with
  | Parsed v rest => match skip_ws rest with [] => Some v | _ :: _ => None end
  | SyntaxErr => None
  | OutOfFuel => None
  end.

End Json.

(* ================================================================= *)
(** ** Effects: [fetch], [console.warn] and [throw] *)

Module Effects.
Import JS Json.

Inductive exn : Type :=
| Error (msg : jsstring)   (* [throw new Error(msg)] *)
| SyntaxError              (* [JSON.parse], or an ill-formed pattern *)
| TypeError                (* a property of [null], a call of a non-function *)
| Rejected.                (* the promise of [fetch] or [text()] is rejected *)

(** An asynchronous function body: it returns, throws, warns on the
    console and goes on, or awaits the text of a fetched resource
    ([await fetch(url)] and [await response.text()], with [url] the value
    handed to [fetch]). *)
Inductive Prog (A : Type) : Type :=
| Ret (a : A)
| Throw (e : exn)
| Warn (msg : jsstring) (k : Prog A)
| Fetch (url : value) (k : jsstring -> Prog A).
Arguments Throw {A} e.

Fixpoint bind {A B} (p : Prog A) (f : A -> Prog B) : Prog B :=
  match p with
  | Ret a => f a
  | Throw e => Throw e
  | Warn msg k => Warn msg (bind k f)
  | Fetch url k => Fetch url (fun body => bind (k body) f)
  end.

(** A pure step that may throw. *)
Definition lift {A} (x : exn + A) : Prog A :=
  match x with inl e => Throw e | inr a => Ret a end.

(** What a caller observes: the console warnings and the requests, in
    order, and how the call ended.  [net] answers each request with the text
    of the response, or not at all. *)
Inductive event : Type :=
| Warned (msg : jsstring)
| Fetched (url : value).

Fixpoint run {A} (net : value -> option jsstring) (p : Prog A)
  : list event * (exn + A) :=
  match p with
  | Ret a => ([], inr a)
  | Throw e => ([], inl e)
  | Warn msg k => let (t, r) := run net k in (Warned msg :: t, r)
  | Fetch url k =>
      match net url with
      | Some body => let (t, r) := run net (k body) in (Fetched url :: t, r)
      | None => ([Fetched url], inl Rejected)
      end
  end.

End Effects.

Declare Scope prog_scope.
Delimit Scope prog_scope with prog.
Notation "x <- p ;; q" := (Effects.bind p (fun x => q))
  (at level 61, p at next level, right associativity) : prog_scope.

(* ================================================================= *)
(** ** The blocks both files repeat verbatim *)

(** The track search ([index.ts] lines 89-94 and 182-187, lines 59-64 of the
    sibling file) and the transcript block ([index.ts] lines 110-149 and
    199-238, lines 87-126 of the sibling file) are the same text at each
    place; they are embedded once. *)
Module Shared.
Import JS Regex Json Effects.
Local Open Scope prog_scope.

Record Subtitle : Type := mkSubtitle {
  start : jsstring;
  dur : jsstring;
  text : jsstring
}.

(** [o.key] for a value that is not [null], with [key] one of [vssId] and
    [baseUrl]: only an object can hold such a member. *)
Definition field (key : jsstring) (o : value) : option value :=
  match o with
  | VObj fs => lookup key fs
  | _ => None
  end.

(** [track.key]: reading a property of [null] throws. *)
Definition get (key : jsstring) (track : value) : exn + option value :=
  match track with
  | VNull => inl TypeError
  | _ => inr (field key track)
  end.

(** [v === s] for a string [s]. *)
Definition is_string (s : jsstring) (v : option value) : bool :=
  match v with
  | Some (VStr x) => str_eqb x s
  | _ => false
  end.

(** [l.find(p)] on the elements of an array. *)
Fixpoint find_elem (p : value -> exn + bool) (l : list value)
  : exn + option value :=
  match l with
  | [] => inr None
  | t :: l' =>
      match p t with
      | inl e => inl e
      | inr true => inr (Some t)
      | inr false => find_elem p l'
      end
  end.

(** [captionTracks.find(p)]: only an array has a [find] to call. *)
Definition find (p : value -> exn + bool) (captionTracks : value)
  : exn + option value :=
  match captionTracks with
  | VArr l => find_elem p l
  | _ => inl TypeError
  end.

(** [a || b] on results that may be [undefined]. *)
Definition or_else (a b : exn + option value) : exn + option value :=
  match a with
  | inl e => inl e
  | inr v => if truthy_opt v then inr v else b
  end.

(** The text of a template literal hole that may be [undefined]. *)
Definition shown (s : option jsstring) : jsstring :=
  match s with Some x => x | None => js "undefined" end.

Definition startRegex : regex :=   (* /start="([\d.]+)"/ *)
  Seq (Lit (jsq "start='"))
      (Seq (Group 1 (Plus true (Chr digit_or_dot))) (Chr (N.eqb dq))).

Definition durRegex : regex :=     (* /dur="([\d.]+)"/ *)
  Seq (Lit (jsq "dur='"))
      (Seq (Group 1 (Plus true (Chr digit_or_dot))) (Chr (N.eqb dq))).

Definition textOpenRegex : regex := (* /<text.+>/ *)
  Seq (Lit (js "<text")) (Seq (Plus true (Chr any_char)) (Chr (N.eqb (cu ">")))).

Definition ampRegex : regex :=      (* /&amp;/gi *)
  Seq (Chr (N.eqb (cu "&")))
      (Seq (Chr (letter_ci (cu "a")))
           (Seq (Chr (letter_ci (cu "m")))
                (Seq (Chr (letter_ci (cu "p"))) (Chr (N.eqb (cu ";")))))).

Definition tagRegex : regex :=      (* /<\/?[^>]+(>|$)/g *)
  Seq (Chr (N.eqb (cu "<")))
      (Seq (Opt (Chr (N.eqb (cu "/"))))
           (Seq (Plus true (Chr (other_than (cu ">"))))
                (Group 1 (Alt (Chr (N.eqb (cu ">"))) Eoi)))).

Definition xmlProlog : jsstring :=
  jsq "<?xml version='1.0' encoding='utf-8' ?><transcript>".

Definition closeText : jsstring := js "</text>".

Section Blocks.

(** The run time's compiler of a pattern given as a string ([None]: the
    [SyntaxError] of an ill-formed pattern), and the two imported packages
    [he] and [striptags], as functions from strings to strings (with the
    default options neither throws on a string). *)
Variable RegExp : jsstring -> option regex.
Variable he_decode : jsstring -> jsstring.
Variable striptags : jsstring -> jsstring.

(** [track.vssId === s]. *)
Definition vssId_is (s : jsstring) (track : value) : exn + bool :=
  match get (js "vssId") track with
  | inl e => inl e
  | inr v => inr (is_string s v)
  end.

(** [s.match(pattern)], as a truth value, for a string pattern. *)
Definition matches (pattern s : jsstring) : exn + bool :=
  match RegExp pattern with
  | None => inl SyntaxError
  | Some r => inr (match exec r s with Some _ => true | None => false end)
  end.

(** [track.vssId && track.vssId.match(pattern)], as a truth value: only a
    string has a [match] to call. *)
Definition vssId_matches (pattern : jsstring) (track : value) : exn + bool :=
  match get (js "vssId") track with
  | inl e => inl e
  | inr v =>
      if truthy_opt v then
        match v with
        | Some (VStr s) => matches pattern s
        | _ => inl TypeError
        end
      else inr false
  end.

(** [const subtitle = find(..) || find(..) || find(..)]. *)
Definition subtitle (captionTracks : value) (lang : jsstring)
  : exn + option value :=
  or_else (find (vssId_is (js "." ++ lang)) captionTracks)
    (or_else (find (vssId_is (js "a." ++ lang)) captionTracks)
       (find (vssId_matches (js "." ++ lang)) captionTracks)).

(** [subtitle?.baseUrl]. *)
Definition baseUrl_of (subtitle : option value) : option value :=
  match subtitle with
  | None | Some VNull => None
  | Some t => field (js "baseUrl") t
  end.

(** The candidates: [transcript.replace(..).replace(..).split(..).filter(..)]. *)
Definition candidates (transcript : jsstring) : list jsstring :=
  filter (fun line => truthy_str (if truthy_str line then trim line else line))
    (split closeText
       (replace_str (js "</transcript>") []
          (replace_str xmlProlog [] transcript))).

(** [htmlText], [decodedText] and [text] of one line. *)
Definition htmlText (line : jsstring) : jsstring :=
  replace_all tagRegex []
    (replace_all ampRegex (js "&") (replace_first textOpenRegex [] line)).

Definition text_of (line : jsstring) : jsstring :=
  striptags (he_decode (htmlText line)).

(** The callback of [reduce]. *)
Definition step (acc : list Subtitle) (line : jsstring) : Prog (list Subtitle) :=
  match exec startRegex line, exec durRegex line with
  | Some startResult, Some durResult =>
      Ret (acc ++ [mkSubtitle (group 1 startResult) (group 1 durResult)
                              (text_of line)])
  | _, _ =>
      Warn (js "Failed to extract start or duration from line: " ++ line)
           (Ret acc)
  end.

Fixpoint reduce (l : list jsstring) (acc : list Subtitle) : Prog (list Subtitle) :=
  match l with
  | [] => Ret acc
  | line :: l' => acc' <- step acc line ;; reduce l' acc'
  end.

(** [const lines = transcript. ... .reduce(.., [])]. *)
Definition lines (transcript : jsstring) : Prog (list Subtitle) :=
  reduce (candidates transcript) [].

End Blocks.
End Shared.

(* ================================================================= *)
(** ** [src/index.ts] *)

Module Index.
Import JS Regex Json Effects Shared.
Local Open Scope prog_scope.

Record Options : Type := mkOptions {
  videoID : jsstring;
  lang : option jsstring;
  pageHtml : option jsstring;
  proxy : option (jsstring -> jsstring)
}.

Record VideoDetails : Type := mkVideoDetails {
  title : jsstring;
  description : jsstring;
  subtitles : list Subtitle
}.

(** [lang = 'en'] in the destructuring of the options. *)
Definition lang_of (o : Options) : jsstring :=
  match lang o with Some l => l | None => js "en" end.

Definition pageUrl_of (videoID : jsstring) : jsstring :=
  js "https://m.youtube.com/watch?v=" ++ videoID.

(** [proxy?.(pageUrl) || pageUrl]. *)
Definition requestUrl_of (proxy : option (jsstring -> jsstring))
  (pageUrl : jsstring) : jsstring :=
  match proxy with
  | Some f => if truthy_str (f pageUrl) then f pageUrl else pageUrl
  | None => pageUrl
  end.

Definition getYouTubePageHTML (o : Options) : Prog jsstring :=
  match pageHtml o with
  | Some (c :: html) => Ret (c :: html)     (* if (pageHtml) return pageHtml *)
  | _ =>
      let pageUrl := pageUrl_of (videoID o) in
      let requestUrl := requestUrl_of (proxy o) pageUrl in
      if negb (truthy_str requestUrl)
      then Throw (Error (js "Proxy function didn't return a valid url"))
      else Fetch (VStr requestUrl) (fun html => Ret html)
  end.

(** The pattern of the [title] tag and of the [description] tag: the text
    [<meta name=Q title Q content=Q], group 1, and the text [Q>], where [Q]
    is the double quote and group 1 is [( C* | C* [^&] quot; C* )], with [C]
    the class of every code unit but the double quote. *)
Definition metaRegex (name : jsstring) : regex :=
  Seq (Lit (jsq "<meta name='" ++ name ++ jsq "' content='"))
      (Seq (Group 1
              (Alt (Star true (Chr (other_than dq)))
                   (Seq (Star true (Chr (other_than dq)))
                        (Seq (Chr (other_than (cu "&")))
                             (Seq (Lit (js "quot;"))
                                  (Star true (Chr (other_than dq))))))))
           (Lit (jsq "'>"))).

(** /"captionTracks":(\[.*?\])/ *)
Definition captionTracksRegex : regex :=
  Seq (Lit (jsq "'captionTracks':"))
      (Group 1
         (Seq (Chr (N.eqb (cu "[")))
              (Seq (Star false (Chr any_char)) (Chr (N.eqb (cu "]")))))).

Section Program.

Variable RegExp : jsstring -> option regex.
Variable he_decode : jsstring -> jsstring.
Variable striptags : jsstring -> jsstring.

(** [getVideoDetails] from the point where the page is at hand. *)
Definition detailsOfPage (videoID lang data : jsstring) : Prog VideoDetails :=
  let titleMatch := exec (metaRegex (js "title")) data in
  let descriptionMatch := exec (metaRegex (js "description")) data in
  let title :=
    match titleMatch with
    | Some m => group 1 m
    | None => js "No title found"
    end in
  let description :=
    match descriptionMatch with
    | Some m => group 1 m
    | None => js "No description found"
    end in
  if negb (includes (js "captionTracks") data) then
    Warn (js "No captions found for video: " ++ videoID)
         (Ret (mkVideoDetails title description []))
  else
    match exec captionTracksRegex data with
    | None =>
        Warn (js "Failed to extract captionTracks from video: " ++ videoID)
             (Ret (mkVideoDetails title description []))
    | Some regexResult =>
        let captionTracksJson := group 1 regexResult in
        match JSON_parse captionTracksJson with
        | None => Throw SyntaxError
        | Some captionTracks =>
            found <- lift (subtitle RegExp captionTracks lang) ;;
            match baseUrl_of found with
            | Some baseUrl =>
                if truthy baseUrl then
                  Fetch baseUrl (fun transcript =>
                    ls <- lines he_decode striptags transcript ;;
                    Ret (mkVideoDetails title description ls))
                else
                  Warn (js "Could not find " ++ lang ++ js " captions for "
                           ++ videoID)
                       (Ret (mkVideoDetails title description []))
            | None =>
                Warn (js "Could not find " ++ lang ++ js " captions for "
                         ++ videoID)
                     (Ret (mkVideoDetails title description []))
            end
        end
    end.

Definition getVideoDetails (options : Options) : Prog VideoDetails :=
  data <- getYouTubePageHTML options ;;
  detailsOfPage (videoID options) (lang_of options) data.

(** [getSubtitles] from the point where the page is at hand. *)
Definition subtitlesOfPage (videoID lang data : jsstring)
  : Prog (list Subtitle) :=
  if negb (includes (js "captionTracks") data) then
    Warn (js "No captions found for video: " ++ videoID) (Ret [])
  else
    match exec captionTracksRegex data with
    | None =>
        Warn (js "Failed to extract captionTracks from video: " ++ videoID)
             (Ret [])
    | Some regexResult =>
        let captionTracksJson := group 1 regexResult in
        match JSON_parse captionTracksJson with
        | None => Throw SyntaxError
        | Some captionTracks =>
            found <- lift (subtitle RegExp captionTracks lang) ;;
            match baseUrl_of found with
            | Some baseUrl =>
                if truthy baseUrl then
                  Fetch baseUrl (fun transcript =>
                    lines he_decode striptags transcript)
                else
                  Warn (js "Could not find " ++ lang ++ js " captions for "
                           ++ videoID)
                       (Ret [])
            | None =>
                Warn (js "Could not find " ++ lang ++ js " captions for "
                         ++ videoID)
                     (Ret [])
            end
        end
    end.

Definition getSubtitles (options : Options) : Prog (list Subtitle) :=
  data <- getYouTubePageHTML options ;;
  subtitlesOfPage (videoID options) (lang_of options) data.

End Program.
End Index.

(* ================================================================= *)
(** ** The sibling revision with [getCaptionDownloadUrl] *)

Module Sibling.
Import JS Regex Json Effects Shared.
Local Open Scope prog_scope.

Record Options : Type := mkOptions {
  videoID : option jsstring;
  lang : option jsstring;
  pageHtml : option jsstring;
  captionDownloadUrl : option jsstring
}.

Definition lang_of (o : Options) : jsstring :=
  match lang o with Some l => l | None => js "en" end.

(** /"captionTracks":\s*?((\[.*?\]),)/ *)
Definition captionTracksRegex : regex :=
  Seq (Lit (jsq "'captionTracks':"))
      (Seq (Star false (Chr is_space))
           (Group 1
              (Seq (Group 2
                      (Seq (Chr (N.eqb (cu "[")))
                           (Seq (Star false (Chr any_char))
                                (Chr (N.eqb (cu "]"))))))
                   (Chr (N.eqb (cu ",")))))).

Section Program.

Variable RegExp : jsstring -> option regex.
Variable he_decode : jsstring -> jsstring.
Variable striptags : jsstring -> jsstring.

(** [getCaptionDownloadUrl] from the point where the page is at hand; the
    result is the URL to download, or [null]. *)
Definition urlOfPage (videoID : option jsstring) (lang html : jsstring)
  : Prog value :=
  if negb (includes (js "captionTracks") html) then
    Warn (js "No captions found for video: " ++ shown videoID) (Ret VNull)
  else
    match exec captionTracksRegex html with
    | None =>
        Warn (js "Failed to extract captionTracks from video: " ++ shown videoID)
             (Ret VNull)
    | Some regexResult =>
        let captionTracksJson := group 2 regexResult in
        match JSON_parse captionTracksJson with
        | None => Throw SyntaxError
        | Some captionTracks =>
            found <- lift (subtitle RegExp captionTracks lang) ;;
            match baseUrl_of found with
            | Some baseUrl =>
                if truthy baseUrl then Ret baseUrl
                else
                  Warn (js "Could not find " ++ lang ++ js " captions for "
                           ++ shown videoID)
                       (Ret VNull)
            | None =>
                Warn (js "Could not find " ++ lang ++ js " captions for "
                         ++ shown videoID)
                     (Ret VNull)
            end
        end
    end.

Definition getCaptionDownloadUrl (o : Options) : Prog value :=
  match captionDownloadUrl o with
  | Some (c :: url) => Ret (VStr (c :: url))
  | _ =>
      match pageHtml o with
      | Some (c :: html) => urlOfPage (videoID o) (lang_of o) (c :: html)
      | _ =>                                (* if (!html) *)
          match videoID o with
          | Some (c :: id) =>
              Fetch (VStr (js "https://m.youtube.com/watch?v=" ++ c :: id))
                    (fun html => urlOfPage (videoID o) (lang_of o) html)
          | _ => Warn (js "No video ID provided") (Ret VNull)
          end
      end
  end.

Definition getSubtitlesDownloadUrl (options : Options) : Prog value :=
  getCaptionDownloadUrl options.

Definition getSubtitles (options : Options) : Prog (list Subtitle) :=
  captionDownloadUrl <- getCaptionDownloadUrl options ;;
  if negb (truthy captionDownloadUrl) then Ret []
  else Fetch captionDownloadUrl (fun transcript =>
         lines he_decode striptags transcript).

End Program.
End Sibling.

(* ================================================================= *)
(** ** Concrete stand-ins for the run time's pattern compiler and the packages *)

(** The closed examples below need concrete functions where the program
    takes [RegExp], [he.decode] and [striptags] from outside. *)
Module Reference.
Import JS Regex.

(** The pattern characters with a meaning of their own. *)
Definition syntax_char (c : codeunit) : bool :=
  existsb (N.eqb c) (js "^$\.*+?()[]{}|").

(** The pattern compiler on patterns made of ordinary characters and dots:
    an ordinary character matches itself, a dot matches any code unit but a
    line terminator.  Other patterns are outside this fragment ([None]). *)
Fixpoint RegExp_plain (pattern : jsstring) : option regex :=
  match pattern with
  | [] => Some Eps
  | c :: rest =>
      match RegExp_plain rest with
      | None => None
      | Some r =>
          if N.eqb c (cu ".") then Some (Seq (Chr any_char) r)
          else if syntax_char c then None
          else Some (Seq (Chr (N.eqb c)) r)
      end
  end.

(** A decoder of the five predefined entities, read from left to right. *)
Fixpoint decode_xml (s : jsstring) : jsstring :=
  match s with
  | [] => []
  | c :: s' =>
      if starts_with (js "&lt;") s then cu "<" :: decode_xml_skip 3 s'
      else if starts_with (js "&gt;") s then cu ">" :: decode_xml_skip 3 s'
      else if starts_with (js "&amp;") s then cu "&" :: decode_xml_skip 4 s'
      else if starts_with (js "&quot;") s then dq :: decode_xml_skip 5 s'
      else if starts_with (js "&apos;") s then 39%N :: decode_xml_skip 5 s'
      else c :: decode_xml s'
  end
with decode_xml_skip (n : nat) (s : jsstring) : jsstring :=
  match s with
  | [] => []
  | _ :: s' =>
      match n with
      | S (S k) => decode_xml_skip (S k) s'
      | _ => decode_xml s'
      end
  end.

(** A stripper of every run from [<] to the next [>]. *)
Fixpoint strip_tags (inside : bool) (s : jsstring) : jsstring :=
  match s with
  | [] => []
  | c :: s' =>
      if inside then strip_tags (negb (N.eqb c (cu ">"))) s'
      else if N.eqb c (cu "<") then strip_tags true s'
      else c :: strip_tags false s'
  end.

End Reference.

(* ================================================================= *)
(** ** The vocabulary of the properties *)

Module Vocabulary.
Import JS Regex Json Effects Shared.

(** How a call ended, with its result mapped. *)
Definition outcome_map {A B} (f : A -> B) (r : list event * (exn + A))
  : list event * (exn + B) :=
  (fst r, match snd r with inl e => inl e | inr a => inr (f a) end).

(** The test of the [reduce] callback ([index.ts] lines 122-125): both
    timing patterns match somewhere in the candidate.  When it holds the
    callback pushes an entry, otherwise it warns and goes on. *)
Definition timing_found (line : jsstring) : bool :=
  match exec startRegex line, exec durRegex line with
  | Some _, Some _ => true
  | _, _ => false
  end.

(** A candidate the filter keeps. *)
Definition kept (line : jsstring) : bool :=
  truthy_str (if truthy_str line then trim line else line).

Section Entries.
Variable he_decode : jsstring -> jsstring.
Variable striptags : jsstring -> jsstring.

(** The entry a segment contributes, if any. *)
Definition entry_of (line : jsstring) : list Subtitle :=
  match exec startRegex line, exec durRegex line with
  | Some startResult, Some durResult =>
      [mkSubtitle (group 1 startResult) (group 1 durResult)
                  (text_of he_decode striptags line)]
  | _, _ => []
  end.

End Entries.

(** The warning a kept candidate without timing leaves on the console. *)
Definition warning_of (line : jsstring) : list event :=
  if timing_found line then []
  else [Warned (js "Failed to extract start or duration from line: " ++ line)].


(** A non-negative decimal: digits with an optional fractional part, that
    is what the anchored pattern of [\d+], an optional [\.\d+], then the
    end of input matches. *)
Definition decimalRegex : regex :=
  Seq (Plus true (Chr digit))
      (Seq (Opt (Seq (Chr (N.eqb (cu "."))) (Plus true (Chr digit)))) Eoi).

Definition is_decimal (s : jsstring) : bool :=
  match match_here decimalRegex s with Some _ => true | None => false end.

(** What the timing patterns do capture: a non-empty run of digits and dots. *)
Definition digits_and_dots (s : jsstring) : bool :=
  truthy_str s && forallb digit_or_dot s.


Definition segment (attrs body : jsstring) : jsstring :=
  js "<text" ++ attrs ++ cu ">" :: body.








(** [s] holds the text [lang] right after some code unit that is not a
    line terminator: what the pattern made of a dot and [lang] looks for. *)
Fixpoint wildcard_includes (lang s : jsstring) : bool :=
  match s with
  | [] => false
  | c :: s' => (any_char c && starts_with lang s') || wildcard_includes lang s'
  end.

(** The object with these members has the string [s] as its [vssId]. *)
Definition has_vssId (s : jsstring) (members : list (jsstring * value)) : bool :=
  is_string s (lookup (js "vssId") members).

(** The literal that opens the [title] or the [description] tag in
    [metaRegex], and the two members as [getVideoDetails] reads them off the
    page. *)
Definition metaPrefix (name : jsstring) : jsstring :=
  jsq "<meta name='" ++ name ++ jsq "' content='".

Definition title_of (page : jsstring) : jsstring :=
  match exec (Index.metaRegex (js "title")) page with
  | Some m => group 1 m
  | None => js "No title found"
  end.

Definition description_of (page : jsstring) : jsstring :=
  match exec (Index.metaRegex (js "description")) page with
  | Some m => group 1 m
  | None => js "No description found"
  end.

(** The root-close wrapper the transcript block removes. *)
Definition closeTranscript : jsstring := js "</transcript>".

(** The requests and the warnings among the events of a call. *)
Definition is_request (e : event) : bool :=
  match e with Fetched _ => true | Warned _ => false end.

Definition is_warning (e : event) : bool :=
  match e with Warned _ => true | Fetched _ => false end.

(** The track the first two searches settle on: the first track whose
    [vssId] is [.lang], else the first whose [vssId] is [a.lang]. *)
Definition exact_track (lang : jsstring)
  (tracks : list (list (jsstring * value))) : option (list (jsstring * value)) :=
  match List.find (has_vssId (js "." ++ lang)) tracks with
  | Some t => Some t
  | None => List.find (has_vssId (js "a." ++ lang)) tracks
  end.

End Vocabulary.

(* ================================================================= *)
(** * Properties *)

Import JS Regex Json Effects Shared Vocabulary.

(* ----------------------------------------------------------------- *)
(** ** Strings *)

Lemma str_eqb_refl (a : jsstring) : str_eqb a a = true.
Proof.
  induction a as [|x a IH]; simpl; [reflexivity|].
  now rewrite N.eqb_refl.
Qed.

Lemma str_eqb_eq (a b : jsstring) : str_eqb a b = true <-> a = b.
Proof.
  split; [|intros ->; apply str_eqb_refl].
  revert b; induction a as [|x a IH]; intros [|y b]; simpl; try easy.
  rewrite andb_true_iff, N.eqb_eq. intros [-> H]. now rewrite (IH _ H).
Qed.

Lemma starts_with_app (p x : jsstring) : starts_with p (p ++ x) = true.
Proof.
  induction p as [|c p IH]; simpl; [reflexivity|].
  now rewrite N.eqb_refl.
Qed.

Lemma starts_with_split (p s : jsstring) :
  starts_with p s = true -> s = p ++ skipn (length p) s.
Proof.
  revert s; induction p as [|c p IH]; intros [|d s]; simpl; try easy.
  rewrite andb_true_iff, N.eqb_eq. intros [-> H]. now rewrite <- (IH _ H).
Qed.


Lemma starts_with_length (p s : jsstring) :
  starts_with p s = true -> length p <= length s.
Proof.
  revert s; induction p as [|c p IH]; intros [|d s]; simpl; try easy; try lia.
  rewrite andb_true_iff. intros [_ H]. apply IH in H. lia.
Qed.

Lemma index_of_bound (p s : jsstring) (i : nat) :
  index_of p s = Some i ->
  i + length p <= length s /\ starts_with p (skipn i s) = true.
Proof.
  revert i; induction s as [|c s IH]; intros i; simpl.
  - destruct (starts_with p []) eqn:E; [|discriminate].
    intros [= <-]. destruct p; [now auto | discriminate].
  - destruct (starts_with p (c :: s)) eqn:E.
    + intros [= <-]. split; [|exact E].
      apply starts_with_length in E. simpl in *. lia.
    + destruct (index_of p s) as [j|]; [|discriminate].
      intros [= <-]. destruct (IH j eq_refl) as [H1 H2].
      split; [simpl; lia | exact H2].
Qed.

(* ----------------------------------------------------------------- *)
(** ** Running a program *)

Lemma run_bind_ret {A B} (net : value -> option jsstring) (p : Prog A)
  (f : A -> B) :
  run net (Effects.bind p (fun a => Ret (f a))) = outcome_map f (run net p).
Proof.
  induction p as [a|e|msg k IH|url k IH]; simpl; try reflexivity.
  - rewrite IH. now destruct (run net k).
  - destruct (net url) as [body|]; [|reflexivity].
    rewrite IH. now destruct (run net (k body)).
Qed.

(* ----------------------------------------------------------------- *)
(** ** Resolving the page *)

Lemma requestUrl_truthy (proxy : option (jsstring -> jsstring))
  (videoID : jsstring) :
  truthy_str (Index.requestUrl_of proxy (Index.pageUrl_of videoID)) = true.
Proof.
  unfold Index.requestUrl_of. destruct proxy as [f|]; [|reflexivity].
  destruct (truthy_str (f (Index.pageUrl_of videoID))) eqn:E;
    [exact E | reflexivity].
Qed.

(** Whatever the proxy answers, the page is fetched: the guard that throws
    is never taken ([index.ts] lines 33-34). *)
Lemma getYouTubePageHTML_fetches (videoID : jsstring) (lang : option jsstring)
  (proxy : option (jsstring -> jsstring)) :
  Index.getYouTubePageHTML (Index.mkOptions videoID lang None proxy)
  = Fetch (VStr (Index.requestUrl_of proxy (Index.pageUrl_of videoID)))
          (fun html => Ret html).
Proof.
  unfold Index.getYouTubePageHTML; simpl.
  now rewrite requestUrl_truthy.
Qed.

(** C10: an empty [pageHtml] is handled as an absent one.  In [index.ts]
    the page is then fetched from the (possibly rewritten) watch-page URL and
    extraction runs on the fetched text; in the sibling file the call is the
    same as without [pageHtml], and with a video identifier and no download
    URL it fetches the watch page. *)
Theorem empty_pageHtml_is_absent :
  (forall RegExp he_decode striptags videoID lang proxy,
      Index.getYouTubePageHTML (Index.mkOptions videoID lang (Some []) proxy)
      = Index.getYouTubePageHTML (Index.mkOptions videoID lang None proxy)
      /\ Index.getSubtitles RegExp he_decode striptags
           (Index.mkOptions videoID lang (Some []) proxy)
         = Fetch (VStr (Index.requestUrl_of proxy (Index.pageUrl_of videoID)))
             (fun html =>
                Index.subtitlesOfPage RegExp he_decode striptags videoID
                  (match lang with Some l => l | None => js "en" end) html))
  /\ (forall RegExp videoID lang url,
         Sibling.getCaptionDownloadUrl RegExp
           (Sibling.mkOptions videoID lang (Some []) url)
         = Sibling.getCaptionDownloadUrl RegExp
             (Sibling.mkOptions videoID lang None url))
  /\ (forall RegExp c id lang,
         Sibling.getCaptionDownloadUrl RegExp
           (Sibling.mkOptions (Some (c :: id)) lang (Some []) None)
         = Fetch (VStr (js "https://m.youtube.com/watch?v=" ++ c :: id))
             (fun html =>
                Sibling.urlOfPage RegExp (Some (c :: id))
                  (match lang with Some l => l | None => js "en" end) html)).
Proof.
  split; [|split].
  - intros RegExp he_decode striptags videoID lang proxy. split; [reflexivity|].
    unfold Index.getSubtitles.
    change (Index.getYouTubePageHTML (Index.mkOptions videoID lang (Some []) proxy))
      with (Index.getYouTubePageHTML (Index.mkOptions videoID lang None proxy)).
    rewrite getYouTubePageHTML_fetches. reflexivity.
  - reflexivity.
  - reflexivity.
Qed.

(** C2, as the code behaves: [getYouTubePageHTML] returns the supplied page
    or fetches, and has no other outcome; the request goes to the watch-page
    URL itself when the proxy answers the empty string, so with no page
    supplied and such a proxy nothing is thrown and the page is fetched. *)
Theorem unusable_proxy_url_is_not_fatal :
  (forall o : Index.Options,
      Index.getYouTubePageHTML o
      = match Index.pageHtml o with
        | Some (c :: html) => Ret (c :: html)
        | _ => Fetch (VStr (Index.requestUrl_of (Index.proxy o)
                              (Index.pageUrl_of (Index.videoID o))))
                     (fun html => Ret html)
        end)
  /\ (forall url, Index.requestUrl_of (Some (fun _ => [])) url = url)
  /\ (forall videoID lang,
         Index.getYouTubePageHTML
           (Index.mkOptions videoID lang None (Some (fun _ => [])))
         = Fetch (VStr (js "https://m.youtube.com/watch?v=" ++ videoID))
                 (fun html => Ret html)).
Proof.
  split; [|split; reflexivity].
  intros [videoID lang pageHtml proxy]. unfold Index.getYouTubePageHTML.
  cbn [Index.pageHtml Index.proxy Index.videoID].
  rewrite requestUrl_truthy.
  now destruct pageHtml as [[|c html]|].
Qed.

(* ----------------------------------------------------------------- *)
(** ** The two entry points of [index.ts] *)

Lemma run_bind_ext {A B C} (net : value -> option jsstring) (h : B -> C)
  (p : Prog A) (f : A -> Prog C) (g : A -> Prog B) :
  (forall a, run net (f a) = outcome_map h (run net (g a))) ->
  run net (Effects.bind p f) = outcome_map h (run net (Effects.bind p g)).
Proof.
  intros Hfg.
  induction p as [a|e|msg k IH|url k IH]; simpl.
  - apply Hfg.
  - reflexivity.
  - rewrite IH. now destruct (run net (Effects.bind k g)).
  - destruct (net url) as [body|]; [|reflexivity].
    rewrite IH. now destruct (run net (Effects.bind (k body) g)).
Qed.

Section EntryPoints.
Variable RegExp : jsstring -> option regex.
Variable he_decode : jsstring -> jsstring.
Variable striptags : jsstring -> jsstring.
Variable net : value -> option jsstring.

Lemma subtitlesOfPage_agrees (videoID lang data : jsstring) :
  run net (Index.subtitlesOfPage RegExp he_decode striptags videoID lang data)
  = outcome_map Index.subtitles
      (run net (Index.detailsOfPage RegExp he_decode striptags videoID lang data)).
Proof.
  unfold Index.subtitlesOfPage, Index.detailsOfPage.
  destruct (includes (js "captionTracks") data); simpl; [|reflexivity].
  destruct (exec Index.captionTracksRegex data) as [m|]; [|reflexivity].
  destruct (JSON_parse (group 1 m)) as [tracks|]; [|reflexivity].
  destruct (subtitle RegExp tracks lang) as [e|found]; simpl; [reflexivity|].
  destruct (baseUrl_of found) as [url|]; [|reflexivity].
  destruct (truthy url); [|reflexivity].
  simpl. destruct (net url) as [transcript|]; [|reflexivity].
  rewrite run_bind_ret.
  now destruct (run net (lines he_decode striptags transcript)) as [t [e|ls]].
Qed.

(** C9: on the same options and the same answers of the network, the two
    entry points of [index.ts] warn and fetch alike and end alike, and the
    subtitles [getSubtitles] returns are the [subtitles] member of what
    [getVideoDetails] returns. *)
Theorem getSubtitles_agrees_with_getVideoDetails (options : Index.Options) :
  run net (Index.getSubtitles RegExp he_decode striptags options)
  = outcome_map Index.subtitles
      (run net (Index.getVideoDetails RegExp he_decode striptags options)).
Proof.
  unfold Index.getSubtitles, Index.getVideoDetails.
  apply run_bind_ext. intros data. apply subtitlesOfPage_agrees.
Qed.

End EntryPoints.

(* ----------------------------------------------------------------- *)
(** ** Selecting a track *)

Section Selection.
Variable RegExp : jsstring -> option regex.

Lemma find_vssId_is (s : jsstring) (tracks : list (list (jsstring * value))) :
  find_elem (vssId_is s) (map VObj tracks)
  = inr (option_map VObj (List.find (has_vssId s) tracks)).
Proof.
  induction tracks as [|t tracks IH]; simpl; [reflexivity|].
  unfold has_vssId at 1. destruct (is_string s (lookup (js "vssId") t)).
  - reflexivity.
  - exact IH.
Qed.


End Selection.

(** C1, at the input that shows the defect: the only track has the [vssId]
    [a-en], which does not contain [.en]; the third search selects it all
    the same, because the dot of the pattern [.en] stands for any code unit. *)
Theorem third_search_reads_dot_as_wildcard :
  let track := VObj [(js "baseUrl", VStr (js "u")); (js "vssId", VStr (js "a-en"))] in
  includes (js ".en") (js "a-en") = false
  /\ subtitle Reference.RegExp_plain (VArr [track]) (js "en") = inr (Some track).
Proof. split; reflexivity. Qed.

(* ----------------------------------------------------------------- *)
(** ** Extracting the manifest *)

(** C3 as stated fails: the page has the marker and the pattern matches,
    but the captured text [[x]] is not JSON, and [getSubtitles] throws the
    [SyntaxError] of [JSON.parse] instead of returning the empty list. *)
Lemma corrupted_manifest_throws :
  let page := jsq "'captionTracks':[x]" in
  includes (js "captionTracks") page = true
  /\ Index.getSubtitles Reference.RegExp_plain Reference.decode_xml
       (Reference.strip_tags false)
       (Index.mkOptions (js "id") None (Some page) None)
     = Throw SyntaxError
  /\ Sibling.getSubtitles Reference.RegExp_plain Reference.decode_xml
       (Reference.strip_tags false)
       (Sibling.mkOptions (Some (js "id")) None (Some (page ++ js ",")) None)
     = Throw SyntaxError.
Proof. repeat split; reflexivity. Qed.

Lemma includes_truthy (p s : jsstring) :
  includes (p) s = true -> truthy_str p = true -> truthy_str s = true.
Proof.
  destruct s; [|reflexivity]. destruct p; [discriminate|]. discriminate.
Qed.

(** C3, amended: when the supplied page has the marker, [getSubtitles]
    warns and returns the empty list if the pattern finds no array, and
    throws the [SyntaxError] of [JSON.parse] if the text the pattern
    captured is not JSON. *)
Theorem unextractable_manifest_is_empty_result :
  forall RegExp he_decode striptags videoID lang proxy page,
    includes (js "captionTracks") page = true ->
    let call := Index.getSubtitles RegExp he_decode striptags
                  (Index.mkOptions videoID lang (Some page) proxy) in
    match exec Index.captionTracksRegex page with
    | None =>
        call = Warn (js "Failed to extract captionTracks from video: " ++ videoID)
                    (Ret [])
    | Some regexResult =>
        match JSON_parse (group 1 regexResult) with
        | None => call = Throw SyntaxError
        | Some _ => True
        end
    end.
Proof.
  intros RegExp he_decode striptags videoID lang proxy page Hmark call.
  assert (Hpage : truthy_str page = true)
    by (apply (includes_truthy _ _ Hmark); reflexivity).
  subst call. unfold Index.getSubtitles, Index.getYouTubePageHTML. simpl.
  destruct page as [|c page]; [discriminate|]. simpl Effects.bind.
  unfold Index.subtitlesOfPage. rewrite Hmark. simpl negb. cbv iota.
  destruct (exec Index.captionTracksRegex (c :: page)) as [m|]; [|reflexivity].
  destruct (JSON_parse (group 1 m)); [exact I | reflexivity].
Qed.

Lemma unextractable_manifest_witness :
  Index.getSubtitles Reference.RegExp_plain Reference.decode_xml
    (Reference.strip_tags false)
    (Index.mkOptions (js "id") None (Some (jsq "'captionTracks':{}")) None)
  = Warn (js "Failed to extract captionTracks from video: id") (Ret [])
  /\ Index.getSubtitles Reference.RegExp_plain Reference.decode_xml
       (Reference.strip_tags false)
       (Index.mkOptions (js "id") None (Some (jsq "'captionTracks':[{]")) None)
     = Throw SyntaxError.
Proof.
  split.
  - exact (@unextractable_manifest_is_empty_result Reference.RegExp_plain
             Reference.decode_xml (Reference.strip_tags false) (js "id") None
             None (jsq "'captionTracks':{}") eq_refl).
  - exact (@unextractable_manifest_is_empty_result Reference.RegExp_plain
             Reference.decode_xml (Reference.strip_tags false) (js "id") None
             None (jsq "'captionTracks':[{]") eq_refl).
Defined.

(* ----------------------------------------------------------------- *)
(** ** The matcher *)

Lemma rx_Seq (a b : regex) (s : jsstring) (c : captures) (k : mcont) :
  rx (Seq a b) s c k = rx a s c (fun s1 c1 => rx b s1 c1 k).
Proof. reflexivity. Qed.

Lemma rx_Group (i : nat) (a : regex) (s : jsstring) (c : captures) (k : mcont) :
  rx (Group i a) s c k
  = rx a s c (fun s1 c1 => k s1 ((i, firstn (length s - length s1) s) :: c1)).
Proof. reflexivity. Qed.

Lemma rx_Chr (p : codeunit -> bool) (x : codeunit) (s : jsstring)
  (c : captures) (k : mcont) :
  rx (Chr p) (x :: s) c k = if p x then k s c else None.
Proof. reflexivity. Qed.

Lemma rx_Star (greedy : bool) (a : regex) (s : jsstring) (c : captures)
  (k : mcont) :
  rx (Star greedy a) s c k = star_loop greedy (rx a) k (length s) s c.
Proof. reflexivity. Qed.

Lemma rx_Lit (l s : jsstring) (c : captures) (k : mcont) :
  rx (Lit l) s c k = if starts_with l s then k (skipn (length l) s) c else None.
Proof.
  revert s; induction l as [|x l IH]; intros s; simpl; [reflexivity|].
  destruct s as [|y s]; [reflexivity|].
  destruct (N.eqb x y); simpl; [apply IH | reflexivity].
Qed.

Lemma star_loop_chr (greedy : bool) (p : codeunit -> bool) (k : mcont)
  (n : nat) (s : jsstring) (c : captures) :
  length s <= n ->
  star_loop greedy (rx (Chr p)) k n s c = star_chr greedy p k s c.
Proof.
  revert s; induction n as [|n IH]; intros s Hn.
  - destruct s; [reflexivity | simpl in Hn; lia].
  - destruct s as [|x s]; simpl.
    + now destruct greedy; destruct (k [] c).
    + destruct (p x).
      * assert (Hlt : (length s <? S (length s)) = true)
          by (apply Nat.ltb_lt; lia).
        rewrite Hlt, IH by (simpl in Hn; lia). reflexivity.
      * now destruct greedy; destruct (k (x :: s) c).
Qed.

(** Where a star over a class hands over: after a run of the class. *)
Lemma star_chr_inv (greedy : bool) (p : codeunit -> bool) (k : mcont)
  (s : jsstring) (c : captures) (r : jsstring * captures) :
  star_chr greedy p k s c = Some r ->
  exists run rest,
    s = run ++ rest /\ forallb p run = true /\ k rest c = Some r.
Proof.
  revert r; induction s as [|x s IH]; intros r; simpl.
  - intros H. now exists [], [].
  - destruct (p x) eqn:Hx.
    + assert (Hmore : star_chr greedy p k s c = Some r ->
                      exists run rest, x :: s = run ++ rest
                                       /\ forallb p run = true
                                       /\ k rest c = Some r).
      { intros H. destruct (IH _ H) as (run & rest & -> & Hrun & Hk).
        exists (x :: run), rest. simpl. now rewrite Hx, Hrun. }
      assert (Hnow : k (x :: s) c = Some r ->
                     exists run rest, x :: s = run ++ rest
                                      /\ forallb p run = true
                                      /\ k rest c = Some r).
      { intros H. now exists [], (x :: s). }
      destruct greedy.
      * destruct (star_chr true p k s c) as [m|] eqn:E.
        -- intros [= <-]. now apply Hmore.
        -- exact Hnow.
      * destruct (k (x :: s) c) as [m|] eqn:E.
        -- intros [= <-]. now apply Hnow.
        -- exact Hmore.
    + intros H. now exists [], (x :: s).
Qed.

(** The greedy star over a class hands over after the whole run when the
    continuation accepts there. *)
Lemma star_chr_greedy_all (p : codeunit -> bool) (k : mcont)
  (run rest : jsstring) (c : captures) (r : jsstring * captures) :
  forallb p run = true ->
  star_chr true p k rest c = Some r ->
  star_chr true p k (run ++ rest) c = Some r.
Proof.
  intros Hrun Hrest. induction run as [|x run IH]; simpl; [exact Hrest|].
  simpl in Hrun. apply andb_true_iff in Hrun as [Hx Hrun].
  now rewrite Hx, (IH Hrun).
Qed.

(** A match found by [exec] is a match at the head of a suffix. *)
Lemma exec_inv (r : regex) (s : jsstring) (m : rmatch) :
  exec r s = Some m ->
  exists before from m0,
    s = before ++ from /\ match_here r from = Some m0
    /\ m = shifts (length before) m0.
Proof.
  revert m; induction s as [|x s IH]; intros m; simpl.
  - destruct (match_here r []) as [m0|] eqn:E; [|discriminate].
    intros [= <-]. now exists [], [], m0.
  - destruct (match_here r (x :: s)) as [m0|] eqn:E.
    + intros [= <-]. now exists [], (x :: s), m0.
    + destruct (exec r s) as [m1|]; [|discriminate].
      intros [= <-]. destruct (IH _ eq_refl) as (before & from & m0 & -> & H & ->).
      now exists (x :: before), from, m0.
Qed.

Lemma group_shifts (i n : nat) (m : rmatch) : group i (shifts n m) = group i m.
Proof. induction n as [|n IH]; [reflexivity | exact IH]. Qed.

(* ----------------------------------------------------------------- *)
(** ** The timing attributes *)

(** The shape shared by [startRegex] and [durRegex]. *)
Lemma timing_group (l line : jsstring) (m : rmatch) :
  exec (Seq (Lit l) (Seq (Group 1 (Plus true (Chr digit_or_dot)))
                         (Chr (N.eqb dq)))) line = Some m ->
  digits_and_dots (group 1 m) = true.
Proof.
  intros H. apply exec_inv in H as (before & from & m0 & _ & H & ->).
  rewrite group_shifts. unfold match_here in H.
  match type of H with
  | match ?x with _ => _ end = _ => destruct x as [[s1 c1]|] eqn:E
  end; [|discriminate].
  injection H as <-. unfold group; simpl m_caps.
  rewrite rx_Seq, rx_Lit in E. destruct (starts_with l from); [|discriminate].
  remember (skipn (length l) from) as s2 eqn:Hs2. clear Hs2.
  unfold Plus in E. rewrite rx_Seq, rx_Group, rx_Seq in E.
  destruct s2 as [|x s3]; [discriminate|].
  rewrite rx_Chr in E. destruct (digit_or_dot x) eqn:Hx; [|discriminate].
  rewrite rx_Star, star_loop_chr in E by lia.
  apply star_chr_inv in E as (run & rest & -> & Hrun & E).
  destruct rest as [|q rest]; [discriminate|].
  rewrite rx_Chr in E. destruct (N.eqb dq q); [|discriminate].
  injection E as _ <-. simpl capture.
  replace (length (run ++ q :: rest) - length rest) with (S (length run))
    by (rewrite length_app; simpl; lia).
  assert (Hcut : firstn (S (length run)) (x :: run ++ q :: rest) = x :: run).
  { simpl. f_equal.
    rewrite firstn_app, firstn_all, Nat.sub_diag. simpl. apply app_nil_r. }
  simpl in Hcut |- *.
  destruct (length run) eqn:Hlen.
  - simpl. destruct run; [|discriminate]. simpl. unfold digits_and_dots.
    simpl. now rewrite Hx.
  - rewrite Hcut. unfold digits_and_dots. simpl. now rewrite Hx, Hrun.
Qed.

Lemma start_group (line : jsstring) (m : rmatch) :
  exec startRegex line = Some m -> digits_and_dots (group 1 m) = true.
Proof. apply timing_group. Qed.

Lemma dur_group (line : jsstring) (m : rmatch) :
  exec durRegex line = Some m -> digits_and_dots (group 1 m) = true.
Proof. apply timing_group. Qed.

(* ----------------------------------------------------------------- *)
(** ** The opening tag *)

(** A star finds nothing where its continuation accepts nowhere. *)
Lemma star_chr_none (greedy : bool) (p : codeunit -> bool) (k : mcont)
  (s : jsstring) (c : captures) :
  (forall before from, s = before ++ from -> k from c = None) ->
  star_chr greedy p k s c = None.
Proof.
  induction s as [|x s IH]; intros Hk; simpl.
  - exact (Hk [] [] eq_refl).
  - assert (H0 : k (x :: s) c = None) by exact (Hk [] (x :: s) eq_refl).
    assert (H1 : star_chr greedy p k s c = None).
    { apply IH. intros before from ->. exact (Hk (x :: before) from eq_refl). }
    rewrite H0, H1. now destruct (p x), greedy.
Qed.

(** On a line that starts with [<text], some attributes without a line
    terminator and [>], and whose body holds no [>], the pattern of the
    opening tag removes exactly the opening tag. *)
Lemma opening_tag_removed (attrs body : jsstring) :
  truthy_str attrs = true ->
  forallb any_char attrs = true ->
  forallb (other_than (cu ">")) body = true ->
  replace_first textOpenRegex [] (js "<text" ++ attrs ++ cu ">" :: body) = body.
Proof.
  intros Hne Hattrs Hbody.
  destruct attrs as [|a attrs]; [discriminate|].
  simpl in Hattrs. apply andb_true_iff in Hattrs as [Ha Hattrs].
  set (k0 := fun (s1 : jsstring) (c1 : captures) => Some (s1, c1)).
  set (k := fun (s1 : jsstring) (c1 : captures) =>
              rx (Chr (N.eqb (cu ">"))) s1 c1 k0).
  assert (Hnone : star_chr true any_char k body [] = None).
  { apply star_chr_none. intros before from ->.
    rewrite forallb_app in Hbody. apply andb_true_iff in Hbody as [_ Hfrom].
    destruct from as [|x from]; [reflexivity|].
    unfold k. rewrite rx_Chr. simpl in Hfrom.
    apply andb_true_iff in Hfrom as [Hx _]. unfold other_than in Hx.
    change (cu ">") with 62%N. rewrite N.eqb_sym.
    now destruct (N.eqb x 62). }
  assert (Hrx : rx textOpenRegex (js "<text" ++ (a :: attrs) ++ cu ">" :: body)
                   [] k0 = Some (body, [])).
  { unfold textOpenRegex, Plus.
    rewrite rx_Seq, rx_Lit, starts_with_app.
    replace (skipn (length (js "<text"))
               (js "<text" ++ (a :: attrs) ++ cu ">" :: body))
      with (a :: attrs ++ cu ">" :: body) by reflexivity.
    rewrite !rx_Seq, rx_Chr, Ha, rx_Star, star_loop_chr by lia.
    fold k. apply star_chr_greedy_all; [exact Hattrs|].
    cbn [star_chr]. change (any_char (cu ">")) with true. cbv iota.
    rewrite Hnone. unfold k. rewrite rx_Chr.
    change (N.eqb (cu ">") (cu ">")) with true. reflexivity. }
  unfold replace_first.
  assert (Hexec : exec textOpenRegex
                    (js "<text" ++ (a :: attrs) ++ cu ">" :: body)
                  = Some (mkMatch 0
                            (firstn (length (js "<text" ++ (a :: attrs)
                                             ++ cu ">" :: body)
                                     - length body)
                               (js "<text" ++ (a :: attrs) ++ cu ">" :: body))
                            body [])).
  { change (js "<text" ++ (a :: attrs) ++ cu ">" :: body)
      with (cu "<" :: js "text" ++ (a :: attrs) ++ cu ">" :: body) at 1.
    cbn [exec]. unfold match_here.
    change (cu "<" :: js "text" ++ (a :: attrs) ++ cu ">" :: body)
      with (js "<text" ++ (a :: attrs) ++ cu ">" :: body).
    fold k0. now rewrite Hrx. }
  rewrite Hexec. reflexivity.
Qed.

(** X4: the pattern of the opening tag is greedy.  On a line made of
    [<text], a non-empty run without line terminators, [>], and a rest
    without [>], it removes everything up to and with that last [>], whatever
    tags and body text the run holds. *)
Theorem opening_tag_pattern_is_greedy (run rest : jsstring) :
  truthy_str run = true ->
  forallb any_char run = true ->
  forallb (other_than (cu ">")) rest = true ->
  replace_first textOpenRegex [] (js "<text" ++ run ++ cu ">" :: rest) = rest.
Proof. apply opening_tag_removed. Qed.

Lemma opening_tag_greedy_witness :
  replace_first textOpenRegex []
    (js "<text" ++ jsq " start='1' dur='2'>Hello <b>brave</b" ++ cu ">" :: js " world")
  = js " world".
Proof.
  exact (@opening_tag_pattern_is_greedy
           (jsq " start='1' dur='2'>Hello <b>brave</b") (js " world")
           eq_refl eq_refl eq_refl).
Defined.

(* ----------------------------------------------------------------- *)
(** ** The transcript block *)

Section Transcript.
Variable he_decode : jsstring -> jsstring.
Variable striptags : jsstring -> jsstring.
Variable net : value -> option jsstring.

(** The loop warns for each candidate without timing and appends one entry
    for each of the others, in the order of the candidates; it never throws. *)
Lemma run_reduce (l : list jsstring) (acc : list Subtitle) :
  run net (reduce he_decode striptags l acc)
  = (flat_map warning_of l,
     inr (acc ++ flat_map (entry_of he_decode striptags) l)).
Proof.
  revert acc; induction l as [|line l IH]; intros acc; simpl.
  - now rewrite app_nil_r.
  - unfold step, warning_of, timing_found, entry_of.
    destruct (exec startRegex line) as [m1|];
      [destruct (exec durRegex line) as [m2|]|]; simpl.
    + rewrite IH. now rewrite <- app_assoc.
    + now rewrite IH.
    + now rewrite IH.
Qed.

Lemma run_lines (transcript : jsstring) :
  run net (lines he_decode striptags transcript)
  = (flat_map warning_of (candidates transcript),
     inr (flat_map (entry_of he_decode striptags) (candidates transcript))).
Proof. unfold lines. now rewrite run_reduce. Qed.

Lemma entry_of_timing (line : jsstring) :
  Forall (fun e => digits_and_dots (start e) = true
                   /\ digits_and_dots (dur e) = true)
         (entry_of he_decode striptags line).
Proof.
  unfold entry_of.
  destruct (exec startRegex line) as [m1|] eqn:E1; [|constructor].
  destruct (exec durRegex line) as [m2|] eqn:E2; [|constructor].
  constructor; [|constructor]. simpl.
  split; [exact (start_group _ E1) | exact (dur_group _ E2)].
Qed.

(** C8, amended: in every entry the parser returns, [start] and [dur] are
    non-empty texts made of digits and dots only (so [1.2.3] and a lone dot
    are accepted as well as decimals); they are the captured text itself. *)
Theorem timing_is_captured_digits_and_dots :
  forall transcript subs,
    snd (run net (lines he_decode striptags transcript)) = inr subs ->
    Forall (fun e => digits_and_dots (start e) = true
                     /\ digits_and_dots (dur e) = true) subs.
Proof.
  intros transcript subs. rewrite run_lines. simpl. intros [= <-].
  induction (candidates transcript) as [|line l IH]; simpl; [constructor|].
  apply Forall_app. split; [apply entry_of_timing | exact IH].
Qed.

(** C5, at the input that shows the defect: the body of the segment is
    [a<b>c</b>d], and the text handed to the decoder is [d] alone; the
    pattern of the opening tag runs to the last [>] of the line, so the body
    before it is lost. *)
Theorem opening_tag_pattern_runs_to_last_angle :
  let line := jsq "<text start='1' dur='2'>a<b>c</b>d" in
  htmlText line = js "d"
  /\ run net (lines he_decode striptags (line ++ closeText))
     = ([], inr [mkSubtitle (js "1") (js "2") (striptags (he_decode (js "d")))]).
Proof. split; vm_compute; reflexivity. Qed.


End Transcript.

Lemma timing_witness :
  Forall (fun e => digits_and_dots (start e) = true
                   /\ digits_and_dots (dur e) = true)
         [mkSubtitle (js "1.2.3") (js ".") (js "x")].
Proof.
  exact (timing_is_captured_digits_and_dots Reference.decode_xml
           (Reference.strip_tags false) (fun _ => None)
           (jsq "<text start='1.2.3' dur='.'>x</text>") eq_refl).
Defined.

(** C8 as stated fails: the segment [<text start="1.2.3" dur=".">] is
    accepted, and neither captured text is a decimal number. *)
Lemma timing_need_not_be_decimal :
  snd (run (fun _ => None)
         (lines Reference.decode_xml (Reference.strip_tags false)
            (jsq "<text start='1.2.3' dur='.'>x</text>")))
  = inr [mkSubtitle (js "1.2.3") (js ".") (js "x")]
  /\ is_decimal (js "1.2.3") = false
  /\ is_decimal (js ".") = false
  /\ is_decimal (js "12.5") = true.
Proof. repeat split; vm_compute; reflexivity. Qed.


(* ----------------------------------------------------------------- *)
(** ** Splitting the transcript into segments *)






(* ----------------------------------------------------------------- *)
(** ** Blank candidates *)







Lemma entry_of_length (he_decode striptags : jsstring -> jsstring)
  (line : jsstring) :
  length (entry_of he_decode striptags line)
  = if timing_found line then 1 else 0.
Proof.
  unfold entry_of, timing_found.
  now destruct (exec startRegex line); [destruct (exec durRegex line)|].
Qed.

(* ----------------------------------------------------------------- *)
(** ** Well-formed and malformed segments *)

Section Segments.
Variable he_decode : jsstring -> jsstring.
Variable striptags : jsstring -> jsstring.
Variable net : value -> option jsstring.




End Segments.

(* ----------------------------------------------------------------- *)
(** ** [JSON.parse]: the fuel is enough *)

Lemma skip_ws_length (s : jsstring) : length (skip_ws s) <= length s.
Proof.
  induction s as [|c s IH]; simpl; [lia|].
  destruct (json_ws c); simpl; lia.
Qed.

Lemma pbind_cons {A} (L : jsstring) (s : jsstring) (x : A)
  (p : presult (list A)) :
  shorter s p /\ fueled p -> length s < length L ->
  shorter L (pbind p (fun t r => Parsed (x :: t) r))
  /\ fueled (pbind p (fun t r => Parsed (x :: t) r)).
Proof.
  destruct p; simpl; intros [H1 H2] H; split; try easy. lia.
Qed.

Lemma parse_chars_ok (n : nat) :
  forall s, length s < n -> shorter s (parse_chars s) /\ fueled (parse_chars s).
Proof.
  induction n as [|n IH]; intros s Hn; [lia|].
  destruct s as [|c s1]; [now split|].
  cbn [parse_chars].
  destruct (N.eqb c dq); [simpl; split; [lia | exact I]|].
  destruct (N.eqb c (cu "\")).
  - destruct s1 as [|e s2]; [now split|].
    cbv zeta.
    assert (Hs : forall x,
               shorter (c :: e :: s2)
                 (pbind (parse_chars s2) (fun t r => Parsed (x :: t) r))
               /\ fueled (pbind (parse_chars s2) (fun t r => Parsed (x :: t) r))).
    { intros x. apply pbind_cons with (s := s2); [|simpl; lia].
      apply IH. simpl in Hn. lia. }
    repeat match goal with
           | |- context [if N.eqb e ?k then pbind _ _ else _] =>
               destruct (N.eqb e k); [apply Hs|]
           end.
    destruct (N.eqb e (cu "u")); [|now split].
    destruct s2 as [|h1 [|h2 [|h3 [|h4 s3]]]]; try now split.
    destruct (hex4 h1 h2 h3 h4); [|now split].
    apply pbind_cons with (s := s3); [|simpl; lia].
    apply IH. simpl in Hn. lia.
  - destruct (N.ltb c 32); [now split|].
    apply pbind_cons with (s := s1); [|simpl; lia].
    apply IH. simpl in Hn. lia.
Qed.

Lemma digits_length (s : jsstring) :
  forall acc count, length (snd (digits acc count s)) <= length s.
Proof.
  induction s as [|c s IH]; intros acc count; simpl; [lia|].
  destruct (N.leb 48 c && N.leb c 57)%bool; simpl; [|lia].
  specialize (IH (acc * 10 + Z.of_N (c - 48))%Z (S count)). lia.
Qed.

Lemma digits_rest (s : jsstring) (acc : Z) (count : nat) (m : Z) (k : nat)
  (r : jsstring) :
  digits acc count s = (m, k, r) -> length r <= length s.
Proof.
  intros H. pose proof (digits_length s acc count) as L.
  now rewrite H in L.
Qed.

Lemma parse_number_ok (s : jsstring) :
  shorter s (parse_number s) /\ fueled (parse_number s).
Proof.
  unfold parse_number.
  destruct (take_sign s) as [neg s0] eqn:Hsign.
  assert (L0 : length s0 <= length s).
  { unfold take_sign in Hsign. destruct s as [|c s']; [now inversion Hsign|].
    destruct (N.eqb c (cu "-")); inversion Hsign; subst; simpl; lia. }
  destruct (int_part s0) as [[n s1]|] eqn:Hint; [|now split].
  assert (L1 : length s1 < length s0).
  { unfold int_part in Hint. destruct s0 as [|c s']; [discriminate|].
    destruct (N.eqb c (cu "0")); [inversion Hint; subst; simpl; lia|].
    destruct (N.leb 49 c && N.leb c 57)%bool; [|discriminate].
    destruct (digits (Z.of_N (c - 48)) 1 s') as [[n' k'] r'] eqn:Hd.
    inversion Hint; subst. apply digits_rest in Hd. simpl; lia. }
  destruct (frac_part n s1) as [[[m k] s2]|] eqn:Hfrac; [|now split].
  assert (L2 : length s2 <= length s1).
  { unfold frac_part in Hfrac. destruct s1 as [|c s']; [now inversion Hfrac|].
    destruct (N.eqb c (cu ".")); [|now inversion Hfrac].
    destruct (digits n 0 s') as [[m' k'] r'] eqn:Hd.
    destruct k'; [discriminate|]. inversion Hfrac; subst.
    apply digits_rest in Hd. simpl; lia. }
  destruct (exp_part s2) as [[x s3]|] eqn:Hexp; [|now split].
  assert (L3 : length s3 <= length s2).
  { unfold exp_part in Hexp. destruct s2 as [|c s']; [now inversion Hexp|].
    destruct (N.eqb c (cu "e") || N.eqb c (cu "E"))%bool; [|now inversion Hexp].
    destruct (exp_sign s') as [eneg s''] eqn:Hes.
    assert (length s'' <= length s').
    { unfold exp_sign in Hes. destruct s' as [|d t]; [now inversion Hes|].
      destruct (N.eqb d (cu "-")); [inversion Hes; subst; simpl; lia|].
      destruct (N.eqb d (cu "+")); inversion Hes; subst; simpl; lia. }
    destruct (digits 0 0 s'') as [[x' j'] r'] eqn:Hd.
    destruct j'; [discriminate|]. inversion Hexp; subst.
    apply digits_rest in Hd. simpl; lia. }
  simpl. split; [lia | exact I].
Qed.

(** The fuel [2 * length s + 1] is enough for a value. *)
Lemma parse_fuel (n : nat) :
  forall s,
    (shorter s (parse_value n s)
     /\ (2 * length s + 1 <= n -> fueled (parse_value n s)))
    /\ (shorter s (parse_elements n s)
        /\ (2 * length s + 2 <= n -> fueled (parse_elements n s)))
    /\ (shorter s (parse_members n s)
        /\ (2 * length s + 2 <= n -> fueled (parse_members n s))).
Proof.
  induction n as [|n IH]; intros s.
  - cbn [parse_value parse_elements parse_members shorter fueled].
    repeat split; try exact I; lia.
  - pose proof (skip_ws_length s) as Ls.
    split; [|split].
    + (* a value *)
      cbn [parse_value].
      destruct (skip_ws s) as [|c s1] eqn:Es; [now split|].
      cbn [length] in Ls.
      pose proof (skip_ws_length s1) as Ls1.
      destruct (N.eqb c (cu "{")).
      { destruct (skip_ws s1) as [|d s2] eqn:Es1; [now split|].
        cbn [length] in Ls1.
        destruct (N.eqb d (cu "}")); [cbn [shorter fueled]; split; [lia | easy]|].
        destruct (IH s1) as (_ & _ & Hm1 & Hm2).
        destruct (parse_members n s1);
          cbn [shorter fueled pbind length] in *; split; try easy; try lia. }
      destruct (N.eqb c (cu "[")).
      { destruct (skip_ws s1) as [|d s2] eqn:Es1; [now split|].
        cbn [length] in Ls1.
        destruct (N.eqb d (cu "]")); [cbn [shorter fueled]; split; [lia | easy]|].
        destruct (IH s1) as (_ & (He1 & He2) & _).
        destruct (parse_elements n s1);
          cbn [shorter fueled pbind length] in *; split; try easy; try lia. }
      destruct (N.eqb c dq).
      { destruct (@parse_chars_ok (S (length s1)) s1 (Nat.lt_succ_diag_r _))
          as [Hc1 Hc2].
        destruct (parse_chars s1);
          cbn [shorter fueled pbind length] in *; split; try easy; lia. }
      destruct (starts_with (js "true") (c :: s1));
        [split; [unfold shorter; rewrite length_skipn; simpl length; lia | easy]|].
      destruct (starts_with (js "false") (c :: s1));
        [split; [unfold shorter; rewrite length_skipn; simpl length; lia | easy]|].
      destruct (starts_with (js "null") (c :: s1));
        [split; [unfold shorter; rewrite length_skipn; simpl length; lia | easy]|].
      destruct (parse_number_ok (c :: s1)) as [Hn1 Hn2].
      destruct (parse_number (c :: s1));
        cbn [shorter fueled pbind length] in *; split; try easy; lia.
    + (* the elements of an array *)
      cbn [parse_elements].
      destruct (IH s) as ((Hv1 & Hv2) & _).
      destruct (parse_value n s) as [v r| |];
        cbn [shorter fueled pbind length] in *;
        [|now split | split; [exact I | intros Hn; apply Hv2; lia]].
      pose proof (skip_ws_length r) as Lr.
      destruct (skip_ws r) as [|c r1]; [now split|]. cbn [length] in Lr.
      destruct (N.eqb c (cu ",")).
      { destruct (IH r1) as (_ & (He1 & He2) & _).
        destruct (parse_elements n r1);
          cbn [shorter fueled pbind length] in *; split; try easy; try lia.
        all: intros Hn; apply He2; lia. }
      destruct (N.eqb c (cu "]")); cbn [shorter fueled]; split; try easy; lia.
    + (* the members of an object *)
      cbn [parse_members].
      destruct (skip_ws s) as [|c s1] eqn:Es; [now split|]. cbn [length] in Ls.
      destruct (N.eqb c dq); [|now split].
      destruct (@parse_chars_ok (S (length s1)) s1 (Nat.lt_succ_diag_r _))
        as [Hc1 Hc2].
      destruct (parse_chars s1) as [key r| |];
        cbn [shorter fueled pbind length] in *; try now split.
      pose proof (skip_ws_length r) as Lr.
      destruct (skip_ws r) as [|d r1]; [now split|]. cbn [length] in Lr.
      destruct (N.eqb d (cu ":")); [|now split].
      destruct (IH r1) as ((Hv1 & Hv2) & _).
      destruct (parse_value n r1) as [v r2| |];
        cbn [shorter fueled pbind length] in *;
        [|now split | split; [exact I | intros Hn; apply Hv2; lia]].
      pose proof (skip_ws_length r2) as Lr2.
      destruct (skip_ws r2) as [|x r3]; [now split|]. cbn [length] in Lr2.
      destruct (N.eqb x (cu ",")).
      { destruct (IH r3) as (_ & _ & Hm1 & Hm2).
        destruct (parse_members n r3);
          cbn [shorter fueled pbind length] in *; split; try easy; try lia.
        all: intros Hn; apply Hm2; lia. }
      destruct (N.eqb x (cu "}")); cbn [shorter fueled]; split; try easy; lia.
Qed.

(** [JSON_parse] answers [None] only for a text that is not JSON. *)
Lemma JSON_parse_fueled (text : jsstring) :
  fueled (parse_value (2 * length text + 1) text).
Proof. apply parse_fuel. lia. Qed.

(* ----------------------------------------------------------------- *)
(** ** What the third search looks for *)

Lemma RegExp_plain_literal (l : jsstring) :
  forallb (fun c => negb (Reference.syntax_char c)) l = true ->
  Reference.RegExp_plain l = Some (Lit l).
Proof.
  induction l as [|c l IH]; simpl; [reflexivity|].
  rewrite andb_true_iff. intros [Hc Hl]. rewrite (IH Hl).
  destruct (N.eqb c (cu ".")) eqn:E.
  - apply N.eqb_eq in E. subst c. discriminate Hc.
  - apply negb_true_iff in Hc. change (cu ".") with 46%N in E.
    now rewrite E, Hc.
Qed.

Lemma RegExp_plain_dot_lang (lang : jsstring) :
  forallb (fun c => negb (Reference.syntax_char c)) lang = true ->
  Reference.RegExp_plain (js "." ++ lang) = Some (Seq (Chr any_char) (Lit lang)).
Proof.
  intros H. change (js "." ++ lang) with (cu "." :: lang).
  cbn [Reference.RegExp_plain]. now rewrite (RegExp_plain_literal _ H).
Qed.

Lemma exec_dot_lang (lang s : jsstring) :
  match exec (Seq (Chr any_char) (Lit lang)) s with
  | Some _ => true
  | None => false
  end = wildcard_includes lang s.
Proof.
  induction s as [|c s IH]; [reflexivity|].
  cbn [exec wildcard_includes]. unfold match_here.
  rewrite rx_Seq, rx_Chr.
  destruct (any_char c); cbn [andb orb].
  - rewrite rx_Lit. destruct (starts_with lang s); [reflexivity|].
    cbn [orb]. rewrite <- IH.
    now destruct (exec (Seq (Chr any_char) (Lit lang)) s).
  - rewrite <- IH. now destruct (exec (Seq (Chr any_char) (Lit lang)) s).
Qed.

Lemma includes_cons (p : jsstring) (c : codeunit) (s : jsstring) :
  includes p (c :: s) = starts_with p (c :: s) || includes p s.
Proof.
  unfold includes. cbn [index_of].
  destruct (starts_with p (c :: s)); [reflexivity|].
  now destruct (index_of p s).
Qed.

(** X1: the third search on a track whose [vssId] is the string [v], given that
    the run time compiles the pattern [.lang] to any one code unit (but a
    line terminator) followed by the text [lang]: the track is taken when
    [v] holds [lang] after any such code unit; a [v] that contains the
    literal [.lang] is one case of it. *)
Theorem third_search_takes_any_unit_before_lang :
  forall (RegExp : jsstring -> option regex) (lang v : jsstring)
         (members : list (jsstring * value)),
    RegExp (js "." ++ lang) = Some (Seq (Chr any_char) (Lit lang)) ->
    lookup (js "vssId") members = Some (VStr v) ->
    vssId_matches RegExp (js "." ++ lang) (VObj members)
    = inr (wildcard_includes lang v)
    /\ (includes (js "." ++ lang) v = true -> wildcard_includes lang v = true).
Proof.
  intros RegExp lang v members Hre Hv. split.
  - unfold vssId_matches, get, field. rewrite Hv. cbn [truthy_opt truthy].
    destruct v as [|c v]; [reflexivity|]. cbn [truthy_str].
    unfold matches. rewrite Hre. now rewrite exec_dot_lang.
  - clear. induction v as [|c v IH]; [discriminate|].
    rewrite includes_cons. cbn [wildcard_includes].
    change (js "." ++ lang) with (cu "." :: lang).
    intros H. apply orb_true_iff in H as [H|H].
    + cbn [starts_with] in H. apply andb_true_iff in H as [Hc Hl].
      apply N.eqb_eq in Hc. subst c. now rewrite Hl.
    + rewrite (IH H). apply orb_true_r.
Qed.

Lemma third_search_witness :
  vssId_matches Reference.RegExp_plain (js "." ++ js "en")
    (VObj [(js "baseUrl", VStr (js "u")); (js "vssId", VStr (js "a.fr-en"))])
  = inr true.
Proof.
  exact (proj1 (@third_search_takes_any_unit_before_lang Reference.RegExp_plain
                  (js "en") (js "a.fr-en")
                  [(js "baseUrl", VStr (js "u"));
                   (js "vssId", VStr (js "a.fr-en"))]
                  (RegExp_plain_dot_lang (js "en") eq_refl) eq_refl)).
Defined.

(* ----------------------------------------------------------------- *)
(** ** A page without the marker *)

(** X2 (scenario A): a supplied page that lacks the text [captionTracks]
    gives a warning and the empty list, with no request and no exception. *)
Theorem page_without_marker_is_empty_result :
  forall RegExp he_decode striptags videoID lang proxy page,
    truthy_str page = true ->
    includes (js "captionTracks") page = false ->
    Index.getSubtitles RegExp he_decode striptags
      (Index.mkOptions videoID lang (Some page) proxy)
    = Warn (js "No captions found for video: " ++ videoID) (Ret []).
Proof.
  intros RegExp he_decode striptags videoID lang proxy page Hpage Hmark.
  unfold Index.getSubtitles, Index.getYouTubePageHTML. simpl.
  destruct page as [|c page]; [discriminate|]. simpl Effects.bind.
  unfold Index.subtitlesOfPage. now rewrite Hmark.
Qed.

Lemma page_without_marker_witness :
  Index.getSubtitles Reference.RegExp_plain Reference.decode_xml
    (Reference.strip_tags false)
    (Index.mkOptions (js "id") None (Some (js "<html></html>")) None)
  = Warn (js "No captions found for video: id") (Ret []).
Proof.
  exact (@page_without_marker_is_empty_result Reference.RegExp_plain
           Reference.decode_xml (Reference.strip_tags false) (js "id") None
           None (js "<html></html>") eq_refl eq_refl).
Defined.

(* ----------------------------------------------------------------- *)
(** ** The text handed to [JSON.parse] *)

Lemma firstn_snoc {A} (l : list A) (x : A) (r : list A) :
  firstn (length (l ++ [x])) (l ++ x :: r) = l ++ [x].
Proof.
  induction l as [|y l IH]; simpl; [reflexivity|]. now rewrite IH.
Qed.

(** Group 1 of the manifest pattern of [index.ts] always takes part in the
    match: it is a bracket, a run without line terminators, and a bracket. *)
Lemma captionTracks_group (data : jsstring) (m : rmatch) :
  exec Index.captionTracksRegex data = Some m ->
  exists inner,
    group 1 m = cu "[" :: inner ++ [cu "]"] /\ forallb any_char inner = true.
Proof.
  intros H. apply exec_inv in H as (before & from & m0 & _ & H & ->).
  rewrite group_shifts. unfold match_here in H.
  match type of H with
  | match ?x with _ => _ end = _ => destruct x as [[s1 c1]|] eqn:E
  end; [|discriminate].
  injection H as <-. unfold group; simpl m_caps.
  unfold Index.captionTracksRegex in E. rewrite rx_Seq, rx_Lit in E.
  destruct (starts_with (jsq "'captionTracks':") from); [|discriminate].
  remember (skipn (length (jsq "'captionTracks':")) from) as s2 eqn:Hs2.
  clear Hs2. rewrite rx_Group, rx_Seq in E.
  destruct s2 as [|x s3]; [discriminate|].
  rewrite rx_Chr in E. destruct (N.eqb (cu "[") x) eqn:Hx; [|discriminate].
  apply N.eqb_eq in Hx. subst x.
  rewrite rx_Seq, rx_Star, star_loop_chr in E by lia.
  apply star_chr_inv in E as (run & rest & -> & Hrun & E).
  destruct rest as [|q rest]; [discriminate|].
  rewrite rx_Chr in E. destruct (N.eqb (cu "]") q) eqn:Hq; [|discriminate].
  apply N.eqb_eq in Hq. subst q.
  injection E as _ <-. exists run. split; [|exact Hrun].
  cbn [capture Nat.eqb].
  match goal with
  | |- firstn ?n _ = _ =>
      assert (Hn : n = length (cu "[" :: run ++ [cu "]"]))
        by (rewrite !length_app; cbn [length]; destruct (length rest);
            cbv iota; rewrite ?length_app; cbn [length]; lia);
      rewrite Hn
  end.
  cbn [length firstn]. f_equal. apply firstn_snoc.
Qed.

Lemma skip_ws_bracket (s : jsstring) : skip_ws (cu "[" :: s) = cu "[" :: s.
Proof. reflexivity. Qed.

(** X3: the text captured by the manifest pattern of [index.ts] parses to an
    array or not at all, so [captionTracks.find] is always the [find] of an
    array. *)
Theorem manifest_is_array (data : jsstring) (m : rmatch) (v : value) :
  exec Index.captionTracksRegex data = Some m ->
  JSON_parse (group 1 m) = Some v ->
  exists tracks, v = VArr tracks.
Proof.
  intros Hm Hv. apply captionTracks_group in Hm as (inner & Hg & _).
  rewrite Hg in Hv. unfold JSON_parse in Hv.
  replace (2 * length (cu "[" :: inner ++ [cu "]"]) + 1)
    with (S (2 * length (cu "[" :: inner ++ [cu "]"]))) in Hv by lia.
  cbn [parse_value] in Hv. rewrite skip_ws_bracket in Hv.
  change (N.eqb (cu "[") (cu "{")) with false in Hv.
  change (N.eqb (cu "[") (cu "[")) with true in Hv. cbv iota in Hv.
  destruct (skip_ws (inner ++ [cu "]"])) as [|d s2]; [discriminate|].
  destruct (N.eqb d (cu "]")).
  - destruct (skip_ws s2); [|discriminate]. injection Hv as <-. now exists [].
  - destruct (parse_elements _ _) as [vs r| |]; try discriminate.
    cbn [pbind] in Hv. destruct (skip_ws r); [|discriminate].
    injection Hv as <-. now exists vs.
Qed.

Lemma manifest_is_array_witness :
  exists tracks,
    VArr [VObj [(js "baseUrl", VStr (js "u")); (js "vssId", VStr (js ".en"))]]
    = VArr tracks.
Proof.
  eapply manifest_is_array
    with (data := jsq "{'captionTracks':[{'baseUrl':'u','vssId':'.en'}]}");
    vm_compute; reflexivity.
Defined.

(* ----------------------------------------------------------------- *)
(** ** The sibling file on a manifest it cannot extract *)

(** As in [index.ts]: with the marker on the page, the sibling file returns
    [null] (and its [getSubtitles] the empty list) with a warning when its
    pattern finds no array, and throws when the captured text is not JSON. *)
Lemma sibling_unextractable_manifest :
  forall RegExp he_decode striptags videoID lang page,
    includes (js "captionTracks") page = true ->
    let call := Sibling.getSubtitles RegExp he_decode striptags
                  (Sibling.mkOptions videoID lang (Some page) None) in
    match exec Sibling.captionTracksRegex page with
    | None =>
        call = Warn (js "Failed to extract captionTracks from video: "
                     ++ shown videoID) (Ret [])
    | Some regexResult =>
        match JSON_parse (group 2 regexResult) with
        | None => call = Throw SyntaxError
        | Some _ => True
        end
    end.
Proof.
  intros RegExp he_decode striptags videoID lang page Hmark call.
  assert (Hpage : truthy_str page = true)
    by (apply (includes_truthy _ _ Hmark); reflexivity).
  subst call. unfold Sibling.getSubtitles, Sibling.getCaptionDownloadUrl.
  cbn [Sibling.captionDownloadUrl Sibling.pageHtml Sibling.videoID].
  destruct page as [|c page]; [discriminate|].
  unfold Sibling.urlOfPage. rewrite Hmark. cbn [negb].
  destruct (exec Sibling.captionTracksRegex (c :: page)) as [m|];
    [|reflexivity].
  destruct (JSON_parse (group 2 m)); [exact I | reflexivity].
Qed.

(* ----------------------------------------------------------------- *)
(** ** Where a pattern that opens with a literal matches *)

Lemma match_here_lit_none (l : jsstring) (r : regex) (s : jsstring) :
  starts_with l s = false -> match_here (Seq (Lit l) r) s = None.
Proof.
  intros H. unfold match_here. now rewrite rx_Seq, rx_Lit, H.
Qed.

(** Without an occurrence of its opening literal the pattern matches
    nowhere. *)
Lemma exec_lit_absent (l : jsstring) (r : regex) (s : jsstring) :
  index_of l s = None -> exec (Seq (Lit l) r) s = None.
Proof.
  induction s as [|c s IH]; cbn [index_of exec];
    destruct (starts_with l _) eqn:E; try discriminate; intros H;
    rewrite (@match_here_lit_none l r _ E); [reflexivity|].
  destruct (index_of l s); [discriminate|]. now rewrite IH.
Qed.

(** A match at the first occurrence of the opening literal is the match
    [exec] reports. *)
Lemma exec_lit_first (l : jsstring) (r : regex) (s : jsstring) (i : nat)
  (m0 : rmatch) :
  index_of l s = Some i ->
  match_here (Seq (Lit l) r) (skipn i s) = Some m0 ->
  exec (Seq (Lit l) r) s = Some (shifts i m0).
Proof.
  revert i; induction s as [|c s IH]; intros i; cbn [index_of exec].
  - destruct (starts_with l []); [|discriminate]. intros [= <-] H.
    cbn [skipn] in H. now rewrite H.
  - destruct (starts_with l (c :: s)) eqn:E.
    + intros [= <-] H. cbn [skipn] in H. now rewrite H.
    + rewrite (@match_here_lit_none l r _ E).
      destruct (index_of l s) as [j|]; [|discriminate].
      intros [= <-] H. cbn [skipn] in H. now rewrite (IH j eq_refl H).
Qed.

Lemma skipn_index_of (l s : jsstring) (i : nat) :
  index_of l s = Some i ->
  skipn i s = l ++ skipn (i + length l) s.
Proof.
  intros H. apply index_of_bound in H as [_ H].
  apply starts_with_split in H. rewrite H at 1.
  now rewrite skipn_skipn, Nat.add_comm.
Qed.

Lemma firstn_minus_app {A} (l r : list A) :
  firstn (length (l ++ r) - length r) (l ++ r) = l.
Proof.
  rewrite length_app, Nat.add_sub. rewrite firstn_app, firstn_all, Nat.sub_diag.
  apply app_nil_r.
Qed.

Lemma rx_Alt (a b : regex) (s : jsstring) (c : captures) (k : mcont) :
  rx (Alt a b) s c k
  = match rx a s c k with Some m => Some m | None => rx b s c k end.
Proof. reflexivity. Qed.

Lemma skipn_app_exact {A} (l r : list A) : skipn (length l) (l ++ r) = r.
Proof. induction l as [|x l IH]; [reflexivity | exact IH]. Qed.

(* ----------------------------------------------------------------- *)
(** ** Title and description *)

Lemma meta_match_here (name content rest : jsstring) :
  forallb (other_than dq) content = true ->
  exists m0,
    match_here (Index.metaRegex name)
      (metaPrefix name ++ content ++ jsq "'>" ++ rest) = Some m0
    /\ group 1 m0 = content.
Proof.
  intros Hcontent.
  set (page := content ++ jsq "'>" ++ rest).
  assert (Hrx : rx (Index.metaRegex name) (metaPrefix name ++ page) []
                  (fun s1 c1 => Some (s1, c1))
                = Some (rest, [(1, content)])).
  { unfold Index.metaRegex. fold (metaPrefix name).
    rewrite rx_Seq, rx_Lit, starts_with_app, skipn_app_exact.
    rewrite rx_Seq, rx_Group, rx_Alt, rx_Star, star_loop_chr by lia.
    match goal with
    | |- match star_chr true ?p ?k page [] with _ => _ end = _ =>
        assert (Hstar : star_chr true p k page [] = Some (rest, [(1, content)]))
    end.
    { unfold page. apply star_chr_greedy_all; [exact Hcontent|].
      change (jsq "'>" ++ rest) with (dq :: cu ">" :: rest).
      cbn [star_chr]. change (other_than dq dq) with false. cbv iota.
      rewrite rx_Lit.
      change (starts_with (jsq "'>") (dq :: cu ">" :: rest)) with true.
      cbv iota.
      rewrite firstn_minus_app. reflexivity. }
    now rewrite Hstar. }
  unfold match_here. fold page. rewrite Hrx.
  eexists. split; [reflexivity|]. reflexivity.
Qed.

(** X5: when the first occurrence of the opening literal of the [title]
    (or [description]) tag is followed by a content without a double quote
    and then by the closing double quote and angle bracket, the pattern of
    that tag matches and its group 1 is that content. *)
Theorem meta_content_is_read (name page content rest : jsstring) (i : nat) :
  index_of (metaPrefix name) page = Some i ->
  skipn (i + length (metaPrefix name)) page = content ++ jsq "'>" ++ rest ->
  forallb (other_than dq) content = true ->
  exists m, exec (Index.metaRegex name) page = Some m /\ group 1 m = content.
Proof.
  intros Hi Hpage Hcontent.
  destruct (@meta_match_here name content rest Hcontent) as (m0 & Hm & Hg).
  assert (Hsuffix : skipn i page
                    = metaPrefix name ++ content ++ jsq "'>" ++ rest).
  { rewrite (@skipn_index_of _ _ _ Hi). now rewrite Hpage. }
  rewrite <- Hsuffix in Hm.
  unfold Index.metaRegex in Hm |- *. fold (metaPrefix name) in Hm |- *.
  exists (shifts i m0). split; [exact (@exec_lit_first _ _ _ _ _ Hi Hm)|].
  now rewrite group_shifts.
Qed.

(** X6: a page without the opening literal of the tag gives the fixed
    placeholder, for the title and for the description. *)
Theorem meta_absent_is_placeholder (page : jsstring) :
  (includes (metaPrefix (js "title")) page = false ->
   title_of page = js "No title found")
  /\ (includes (metaPrefix (js "description")) page = false ->
      description_of page = js "No description found").
Proof.
  unfold includes, title_of, description_of, Index.metaRegex.
  split; intros H.
  - fold (metaPrefix (js "title")).
    destruct (index_of (metaPrefix (js "title")) page) eqn:E; [discriminate|].
    now rewrite (@exec_lit_absent _ _ _ E).
  - fold (metaPrefix (js "description")).
    destruct (index_of (metaPrefix (js "description")) page) eqn:E;
      [discriminate|].
    now rewrite (@exec_lit_absent _ _ _ E).
Qed.

Lemma meta_absent_witness :
  title_of (js "<html><head></head></html>") = js "No title found"
  /\ description_of (js "<html><head></head></html>")
     = js "No description found".
Proof.
  split.
  - exact (proj1 (meta_absent_is_placeholder (js "<html><head></head></html>"))
                 eq_refl).
  - exact (proj2 (meta_absent_is_placeholder (js "<html><head></head></html>"))
                 eq_refl).
Defined.

Lemma meta_content_witness :
  exists m,
    exec (Index.metaRegex (js "title"))
      (jsq "<head><meta name='title' content='Me &amp; you'><meta name='x'>")
    = Some m
    /\ group 1 m = js "Me &amp; you".
Proof.
  exact (@meta_content_is_read (js "title")
           (jsq "<head><meta name='title' content='Me &amp; you'><meta name='x'>")
           (js "Me &amp; you") (jsq "<meta name='x'>") 6
           eq_refl eq_refl eq_refl).
Defined.

Section Details.
Variable RegExp : jsstring -> option regex.
Variable he_decode : jsstring -> jsstring.
Variable striptags : jsstring -> jsstring.
Variable net : value -> option jsstring.

(** X7: whatever happens to the captions, the details [getVideoDetails]
    returns for a supplied page carry the title and the description read off
    that page (the tag content, or the placeholder). *)
Theorem details_carry_page_metadata :
  forall videoID lang proxy page d,
    truthy_str page = true ->
    snd (run net (Index.getVideoDetails RegExp he_decode striptags
                    (Index.mkOptions videoID lang (Some page) proxy)))
    = inr d ->
    Index.title d = title_of page
    /\ Index.description d = description_of page.
Proof.
  intros videoID lang proxy page d Hpage.
  unfold Index.getVideoDetails, Index.getYouTubePageHTML.
  cbn [Index.pageHtml Index.videoID].
  destruct page as [|c page]; [discriminate|]. cbn [Effects.bind].
  unfold Index.detailsOfPage.
  fold (title_of (c :: page)). fold (description_of (c :: page)).
  destruct (includes (js "captionTracks") (c :: page)); cbn [negb];
    [|cbn; now intros [= <-]].
  destruct (exec Index.captionTracksRegex (c :: page)) as [m|];
    [|cbn; now intros [= <-]].
  destruct (JSON_parse (group 1 m)) as [tracks|]; [|discriminate].
  destruct (subtitle RegExp tracks _) as [e|found]; [discriminate|].
  cbn [lift Effects.bind].
  destruct (baseUrl_of found) as [url|]; [|cbn; now intros [= <-]].
  destruct (truthy url); [|cbn; now intros [= <-]].
  cbn [run]. destruct (net url) as [transcript|]; [|discriminate].
  rewrite run_bind_ret, run_lines. cbn. now intros [= <-].
Qed.

End Details.

Lemma details_metadata_witness :
  Index.title (Index.mkVideoDetails (js "T") (js "No description found") [])
  = title_of (jsq "<meta name='title' content='T'>")
  /\ Index.description
       (Index.mkVideoDetails (js "T") (js "No description found") [])
     = description_of (jsq "<meta name='title' content='T'>").
Proof.
  exact (@details_carry_page_metadata Reference.RegExp_plain
           Reference.decode_xml (Reference.strip_tags false) (fun _ => None)
           (js "id") None None (jsq "<meta name='title' content='T'>")
           (Index.mkVideoDetails (js "T") (js "No description found") [])
           eq_refl eq_refl).
Defined.

(* ----------------------------------------------------------------- *)
(** ** Reading the timing attributes *)

Lemma timing_match_here (l v rest : jsstring) :
  digits_and_dots v = true ->
  exists m0,
    match_here (Seq (Lit l) (Seq (Group 1 (Plus true (Chr digit_or_dot)))
                                 (Chr (N.eqb dq))))
      (l ++ v ++ dq :: rest) = Some m0
    /\ group 1 m0 = v.
Proof.
  unfold digits_and_dots. intros Hv. apply andb_true_iff in Hv as [Hne Hv].
  destruct v as [|x v]; [discriminate|]. cbn [forallb] in Hv.
  apply andb_true_iff in Hv as [Hx Hv].
  assert (Hrx : rx (Seq (Lit l) (Seq (Group 1 (Plus true (Chr digit_or_dot)))
                                     (Chr (N.eqb dq))))
                  (l ++ (x :: v) ++ dq :: rest) []
                  (fun s1 c1 => Some (s1, c1))
                = Some (rest, [(1, x :: v)])).
  { rewrite rx_Seq, rx_Lit, starts_with_app, skipn_app_exact.
    unfold Plus. rewrite rx_Seq, rx_Group, rx_Seq.
    change ((x :: v) ++ dq :: rest) with (x :: v ++ dq :: rest).
    rewrite rx_Chr, Hx, rx_Star, star_loop_chr by lia.
    apply star_chr_greedy_all; [exact Hv|].
    cbn [star_chr]. change (digit_or_dot dq) with false. cbv iota.
    rewrite rx_Chr. change (N.eqb dq dq) with true. cbv iota.
    change (x :: v ++ dq :: rest) with ((x :: v) ++ dq :: rest).
    now rewrite firstn_minus_app. }
  unfold match_here. rewrite Hrx. eexists. split; reflexivity.
Qed.

Section TimingValues.
Variable he_decode : jsstring -> jsstring.
Variable striptags : jsstring -> jsstring.

(** X8: when the first occurrence in a line of the text [start=] with an
    opening double quote is followed by a non-empty run of digits and dots
    and a double quote, and the first such occurrence of [dur=] likewise,
    the line yields one entry whose [start] and [dur] are those two runs. *)
Theorem entry_reads_first_timing_values :
  forall line i j vs vd rest_s rest_d,
    index_of (jsq "start='") line = Some i ->
    skipn (i + 7) line = vs ++ dq :: rest_s ->
    digits_and_dots vs = true ->
    index_of (jsq "dur='") line = Some j ->
    skipn (j + 5) line = vd ++ dq :: rest_d ->
    digits_and_dots vd = true ->
    entry_of he_decode striptags line
    = [mkSubtitle vs vd (text_of he_decode striptags line)].
Proof.
  intros line i j vs vd rest_s rest_d Hi Hs Hvs Hj Hd Hvd.
  destruct (@timing_match_here (jsq "start='") vs rest_s Hvs) as (ms & Hms & Hgs).
  destruct (@timing_match_here (jsq "dur='") vd rest_d Hvd) as (md & Hmd & Hgd).
  rewrite <- Hs in Hms. rewrite <- Hd in Hmd.
  change 7 with (length (jsq "start='")) in Hms.
  change 5 with (length (jsq "dur='")) in Hmd.
  rewrite <- (@skipn_index_of _ _ _ Hi) in Hms.
  rewrite <- (@skipn_index_of _ _ _ Hj) in Hmd.
  unfold entry_of, startRegex, durRegex.
  rewrite (@exec_lit_first _ _ _ _ _ Hi Hms), (@exec_lit_first _ _ _ _ _ Hj Hmd).
  now rewrite !group_shifts, Hgs, Hgd.
Qed.

End TimingValues.

Lemma entry_timing_witness :
  entry_of Reference.decode_xml (Reference.strip_tags false)
    (jsq "<text  dur='2.5' restart='9' start='1.0'>Hi")
  = [mkSubtitle (js "9") (js "2.5")
       (text_of Reference.decode_xml (Reference.strip_tags false)
          (jsq "<text  dur='2.5' restart='9' start='1.0'>Hi"))].
Proof.
  exact (@entry_reads_first_timing_values Reference.decode_xml
           (Reference.strip_tags false)
           (jsq "<text  dur='2.5' restart='9' start='1.0'>Hi")
           19 7 (js "9") (js "2.5")
           (jsq " start='1.0'>Hi") (jsq " restart='9' start='1.0'>Hi")
           eq_refl eq_refl eq_refl eq_refl eq_refl eq_refl).
Defined.

(* ----------------------------------------------------------------- *)
(** ** Every candidate is accounted for *)

Section Accounting.
Variable he_decode : jsstring -> jsstring.
Variable striptags : jsstring -> jsstring.
Variable net : value -> option jsstring.

Lemma entry_or_warning (line : jsstring) :
  length (warning_of line) + length (entry_of he_decode striptags line) = 1.
Proof.
  rewrite entry_of_length. unfold warning_of.
  now destruct (timing_found line).
Qed.

Lemma warnings_are_warnings (l : list jsstring) :
  forallb is_warning (flat_map warning_of l) = true.
Proof.
  induction l as [|line l IH]; [reflexivity|].
  cbn [flat_map]. rewrite forallb_app, IH. unfold warning_of.
  now destruct (timing_found line).
Qed.

(** X9: the transcript block never throws and never fetches, and it
    accounts for every candidate it keeps: each one gives either an entry or
    a warning, so entries and warnings together are as many as the
    candidates. *)
Theorem every_candidate_is_entry_or_warning (transcript : jsstring) :
  exists warnings subs,
    run net (lines he_decode striptags transcript) = (warnings, inr subs)
    /\ forallb is_warning warnings = true
    /\ length warnings + length subs = length (candidates transcript).
Proof.
  rewrite run_lines. do 2 eexists. split; [reflexivity|].
  split; [apply warnings_are_warnings|].
  induction (candidates transcript) as [|line l IH]; [reflexivity|].
  cbn [flat_map length]. rewrite !length_app.
  pose proof (entry_or_warning line). lia.
Qed.

End Accounting.

(* ----------------------------------------------------------------- *)
(** ** The wrapper strings *)

Lemma index_of_head (p s : jsstring) :
  starts_with p s = true -> index_of p s = Some 0.
Proof. intros H. destruct s; cbn [index_of]; now rewrite H. Qed.

Section FirstOccurrence.
Variable c : codeunit.
Variable q : jsstring.
Hypothesis Hfresh : forallb (fun d => negb (N.eqb d c)) q = true.

Lemma starts_with_before (q1 x y : jsstring) :
  forallb (fun d => negb (N.eqb d c)) q1 = true ->
  starts_with q1 (x ++ c :: y) = true -> starts_with q1 x = true.
Proof.
  revert q1; induction x as [|a x IH]; intros [|d q1]; cbn; try reflexivity.
  - rewrite !andb_true_iff, negb_true_iff. intros [Hd _] [He _].
    congruence.
  - rewrite !andb_true_iff. intros [_ Hq1] [-> H]. split; [reflexivity|].
    now apply IH.
Qed.

Lemma no_overlap (x rest : jsstring) :
  starts_with (c :: q) (x ++ (c :: q) ++ rest) = true ->
  x = [] \/ starts_with (c :: q) x = true.
Proof.
  intros H.
  destruct x as [|a x]; [now left|]. right.
  cbn [app starts_with] in *. apply andb_true_iff in H as [Ha Hq].
  rewrite Ha. cbn [andb].
  exact (@starts_with_before q x (q ++ rest) Hfresh Hq).
Qed.

Lemma index_of_after (s rest : jsstring) :
  includes (c :: q) s = false ->
  index_of (c :: q) (s ++ (c :: q) ++ rest) = Some (length s).
Proof.
  unfold includes. induction s as [|a s IH]; intros H.
  - apply index_of_head. exact (starts_with_app (c :: q) rest).
  - change (index_of (c :: q) ((a :: s) ++ (c :: q) ++ rest))
      with (if starts_with (c :: q) ((a :: s) ++ (c :: q) ++ rest)
            then Some 0
            else option_map S (index_of (c :: q) (s ++ (c :: q) ++ rest))).
    change (index_of (c :: q) (a :: s))
      with (if starts_with (c :: q) (a :: s) then Some 0
            else option_map S (index_of (c :: q) s)) in H.
    destruct (starts_with (c :: q) (a :: s)) eqn:E; [discriminate|].
    destruct (starts_with (c :: q) ((a :: s) ++ (c :: q) ++ rest)) eqn:E'.
    + apply no_overlap in E' as [E'|E']; congruence.
    + rewrite IH; [reflexivity|].
      now destruct (index_of (c :: q) s).
Qed.

End FirstOccurrence.

Lemma replace_str_absent (p r s : jsstring) :
  includes p s = false -> replace_str p r s = s.
Proof.
  unfold includes, replace_str. now destruct (index_of p s).
Qed.

Lemma replace_str_head (p s : jsstring) : replace_str p [] (p ++ s) = s.
Proof.
  unfold replace_str.
  assert (H : index_of p (p ++ s) = Some 0).
  { apply index_of_head. apply starts_with_app. }
  rewrite H. cbn [firstn app Nat.add]. apply skipn_app_exact.
Qed.

Lemma replace_str_closeTranscript (body : jsstring) :
  includes closeTranscript body = false ->
  replace_str closeTranscript [] (body ++ closeTranscript) = body.
Proof.
  intros H. unfold replace_str.
  assert (Hi : index_of closeTranscript (body ++ closeTranscript)
               = Some (length body)).
  { rewrite <- (app_nil_r closeTranscript) at 2.
    exact (@index_of_after (cu "<") (js "/transcript>") eq_refl body [] H). }
  rewrite Hi. rewrite firstn_app, firstn_all, Nat.sub_diag. cbn [firstn].
  rewrite skipn_all2 by (rewrite length_app; lia).
  now rewrite !app_nil_r.
Qed.

Section Wrapper.
Variable he_decode : jsstring -> jsstring.
Variable striptags : jsstring -> jsstring.

(** X10: the wrapper is tolerated.  For a body that holds neither wrapper
    string, the body between the XML prolog and the root close, and the body
    after the prolog alone, parse exactly as the body by itself. *)
Theorem wrapper_is_tolerated (body : jsstring) :
  includes xmlProlog body = false ->
  includes closeTranscript body = false ->
  lines he_decode striptags (xmlProlog ++ body ++ closeTranscript)
  = lines he_decode striptags body
  /\ lines he_decode striptags (xmlProlog ++ body)
     = lines he_decode striptags body.
Proof.
  intros Hp Hc.
  assert (Hbody : candidates body = filter kept (split closeText body)).
  { unfold candidates. fold closeTranscript.
    now rewrite (@replace_str_absent _ [] _ Hp), (@replace_str_absent _ [] _ Hc). }
  unfold lines. rewrite Hbody. unfold candidates. fold closeTranscript.
  rewrite !replace_str_head.
  rewrite (@replace_str_closeTranscript _ Hc), (@replace_str_absent _ [] _ Hc).
  split; reflexivity.
Qed.

End Wrapper.

Lemma wrapper_witness :
  lines Reference.decode_xml (Reference.strip_tags false)
    (xmlProlog ++ jsq "<text start='1' dur='2'>Hi</text>" ++ closeTranscript)
  = lines Reference.decode_xml (Reference.strip_tags false)
      (jsq "<text start='1' dur='2'>Hi</text>").
Proof.
  exact (proj1 (@wrapper_is_tolerated Reference.decode_xml
                  (Reference.strip_tags false)
                  (jsq "<text start='1' dur='2'>Hi</text>") eq_refl eq_refl)).
Defined.

(* ----------------------------------------------------------------- *)
(** ** Where the manifest pattern stops *)

(** The lazy star hands over at the first point where the continuation
    accepts. *)
Lemma star_chr_lazy_inv (p : codeunit -> bool) (k : mcont) (s : jsstring)
  (c : captures) (r : jsstring * captures) :
  star_chr false p k s c = Some r ->
  exists run rest,
    s = run ++ rest /\ forallb p run = true /\ k rest c = Some r
    /\ (forall a y b, run = a ++ y :: b -> k (y :: b ++ rest) c = None).
Proof.
  revert r; induction s as [|x s IH]; intros r; cbn [star_chr].
  - intros H. exists [], []. repeat split; [exact H|].
    intros [|? ?] y b E; discriminate.
  - assert (Hnow : k (x :: s) c = Some r ->
                   exists run rest,
                     x :: s = run ++ rest /\ forallb p run = true
                     /\ k rest c = Some r
                     /\ (forall a y b, run = a ++ y :: b ->
                                       k (y :: b ++ rest) c = None)).
    { intros H. exists [], (x :: s). repeat split; [exact H|].
      intros [|? ?] y b E; discriminate. }
    destruct (p x) eqn:Hx; [|exact Hnow].
    destruct (k (x :: s) c) as [m|] eqn:E.
    + intros [= <-]. now apply Hnow.
    + intros H. destruct (IH _ H) as (run & rest & -> & Hrun & Hk & Hmin).
      exists (x :: run), rest. cbn [forallb app]. rewrite Hx, Hrun.
      repeat split; [exact Hk|].
      intros [|a0 a] y b Eab.
      * injection Eab as <- <-. exact E.
      * injection Eab as <- Eab. exact (Hmin a y b Eab).
Qed.

Lemma forallb_by_position {A} (P : A -> bool) (l : list A) :
  (forall a y b, l = a ++ y :: b -> P y = true) -> forallb P l = true.
Proof.
  induction l as [|x l IH]; intros H; [reflexivity|]. cbn [forallb].
  rewrite (H [] x l eq_refl). apply IH.
  intros a y b ->. exact (H (x :: a) y b eq_refl).
Qed.

(** X11: the text [index.ts] hands to [JSON.parse] runs from the bracket
    after the key to the first closing bracket: between the two brackets it
    holds no closing bracket and no line terminator. *)
Theorem manifest_text_ends_at_first_bracket (data : jsstring) (m : rmatch) :
  exec Index.captionTracksRegex data = Some m ->
  exists inner,
    group 1 m = cu "[" :: inner ++ [cu "]"]
    /\ forallb any_char inner = true
    /\ forallb (other_than (cu "]")) inner = true.
Proof.
  intros H. apply exec_inv in H as (before & from & m0 & _ & H & ->).
  rewrite group_shifts. unfold match_here in H.
  match type of H with
  | match ?x with _ => _ end = _ => destruct x as [[s1 c1]|] eqn:E
  end; [|discriminate].
  injection H as <-. unfold group; cbn [m_caps].
  unfold Index.captionTracksRegex in E. rewrite rx_Seq, rx_Lit in E.
  destruct (starts_with (jsq "'captionTracks':") from); [|discriminate].
  remember (skipn (length (jsq "'captionTracks':")) from) as s2 eqn:Hs2.
  clear Hs2. rewrite rx_Group, rx_Seq in E.
  destruct s2 as [|x s3]; [discriminate|].
  rewrite rx_Chr in E. destruct (N.eqb (cu "[") x) eqn:Hx; [|discriminate].
  apply N.eqb_eq in Hx. subst x.
  rewrite rx_Seq, rx_Star, star_loop_chr in E by lia.
  apply star_chr_lazy_inv in E as (run & rest & -> & Hrun & E & Hmin).
  destruct rest as [|q rest]; [discriminate|].
  rewrite rx_Chr in E. destruct (N.eqb (cu "]") q) eqn:Hq; [|discriminate].
  apply N.eqb_eq in Hq. subst q.
  injection E as _ <-. exists run. split; [|split; [exact Hrun|]].
  - cbn [capture Nat.eqb].
    match goal with
    | |- firstn ?n _ = _ =>
        assert (Hn : n = length (cu "[" :: run ++ [cu "]"]))
          by (rewrite !length_app; cbn [length]; destruct (length rest);
              cbv iota; rewrite ?length_app; cbn [length]; lia);
        rewrite Hn
    end.
    cbn [length firstn]. f_equal. apply firstn_snoc.
  - apply forallb_by_position. intros a y b ->.
    specialize (Hmin a y b eq_refl). rewrite rx_Chr in Hmin.
    unfold other_than. rewrite N.eqb_sym.
    now destruct (N.eqb (cu "]") y).
Qed.

Lemma manifest_text_witness :
  exists inner,
    group 1 (mkMatch 1 (jsq "'captionTracks':[{'a':[1]") (jsq "}]}")
               [(1, jsq "[{'a':[1]")])
    = cu "[" :: inner ++ [cu "]"]
    /\ forallb any_char inner = true
    /\ forallb (other_than (cu "]")) inner = true.
Proof.
  exact (@manifest_text_ends_at_first_bracket
           (jsq "{'captionTracks':[{'a':[1]}]}")
           (mkMatch 1 (jsq "'captionTracks':[{'a':[1]") (jsq "}]}")
              [(1, jsq "[{'a':[1]")])
           eq_refl).
Defined.

(* ----------------------------------------------------------------- *)
(** ** What the track search can return *)

Lemma find_elem_some (p : value -> exn + bool) (l : list value) (t : value) :
  find_elem p l = inr (Some t) -> In t l /\ p t = inr true.
Proof.
  induction l as [|x l IH]; cbn [find_elem]; [discriminate|].
  destruct (p x) as [e|[|]] eqn:E; [discriminate| |].
  - intros [= <-]. split; [now left | exact E].
  - intros H. destruct (IH H). split; [now right | assumption].
Qed.

Lemma find_some (p : value -> exn + bool) (v t : value) :
  find p v = inr (Some t) ->
  exists l, v = VArr l /\ In t l /\ p t = inr true.
Proof.
  destruct v; try discriminate. intros H. exists l.
  split; [reflexivity|]. now apply find_elem_some.
Qed.

Lemma or_else_some (a b : exn + option value) (t : value) :
  or_else a b = inr (Some t) -> a = inr (Some t) \/ b = inr (Some t).
Proof.
  unfold or_else. destruct a as [e|v]; [discriminate|].
  destruct (truthy_opt v); [|now right].
  intros [= ->]. now left.
Qed.

Lemma vssId_is_true (s : jsstring) (t : value) :
  vssId_is s t = inr true ->
  exists members, t = VObj members /\ lookup (js "vssId") members = Some (VStr s).
Proof.
  unfold vssId_is, get, field.
  destruct t as [| | | | |members]; try discriminate.
  intros [= H]. exists members. split; [reflexivity|].
  unfold is_string in H. destruct (lookup (js "vssId") members) as [[| | |x| |]|];
    try discriminate.
  apply str_eqb_eq in H. now subst.
Qed.

Section SearchResult.
Variable RegExp : jsstring -> option regex.

Lemma vssId_matches_true (pattern : jsstring) (t : value) :
  vssId_matches RegExp pattern t = inr true ->
  exists members v,
    t = VObj members /\ lookup (js "vssId") members = Some (VStr v)
    /\ matches RegExp pattern v = inr true.
Proof.
  unfold vssId_matches, get, field.
  destruct t as [| | | | |members]; try discriminate.
  destruct (lookup (js "vssId") members) as [v|] eqn:E; [|discriminate].
  destruct (truthy_opt (Some v)); [|discriminate].
  destruct v; try discriminate.
  intros H. exists members, s. repeat split; assumption.
Qed.

(** X12: whatever the manifest holds, a track the search returns is an
    element of the manifest array, and it is an object whose [vssId] is a
    string: the text [.lang] or [a.lang], or a text the third search
    matches. *)
Theorem selected_track_is_from_manifest :
  forall (captionTracks : value) (lang : jsstring) (t : value),
    subtitle RegExp captionTracks lang = inr (Some t) ->
    exists l members v,
      captionTracks = VArr l /\ In t l /\ t = VObj members
      /\ lookup (js "vssId") members = Some (VStr v)
      /\ (v = js "." ++ lang \/ v = js "a." ++ lang
          \/ matches RegExp (js "." ++ lang) v = inr true).
Proof.
  intros captionTracks lang t H. unfold subtitle in H.
  apply or_else_some in H as [H|H]; [|apply or_else_some in H as [H|H]];
    apply find_some in H as (l & -> & Hin & Hp).
  - apply vssId_is_true in Hp as (members & -> & Hv).
    exists l, members, (js "." ++ lang). repeat split; auto.
  - apply vssId_is_true in Hp as (members & -> & Hv).
    exists l, members, (js "a." ++ lang). repeat split; auto.
  - apply vssId_matches_true in Hp as (members & v & -> & Hv & Hm).
    exists l, members, v. repeat split; auto.
Qed.

Lemma find_elem_app (p : value -> exn + bool) (l1 l2 : list value) :
  find_elem p (l1 ++ l2)
  = match find_elem p l1 with
    | inr None => find_elem p l2
    | r => r
    end.
Proof.
  induction l1 as [|x l1 IH]; cbn [app find_elem]; [reflexivity|].
  destruct (p x) as [e|[|]]; [reflexivity | reflexivity | exact IH].
Qed.

(** X13: a [null] element of the manifest makes the search throw a
    [TypeError] as soon as the first search reaches it, that is when no
    track object before it has the [vssId] [.lang]; whatever follows the
    [null] is not looked at. *)
Theorem null_track_throws :
  forall (before : list (list (jsstring * value))) (after : list value)
         (lang : jsstring),
    List.find (has_vssId (js "." ++ lang)) before = None ->
    subtitle RegExp (VArr (map VObj before ++ VNull :: after)) lang
    = inl TypeError.
Proof.
  intros before after lang H. unfold subtitle, find.
  rewrite find_elem_app, find_vssId_is, H. reflexivity.
Qed.

Lemma subtitle_exact (tracks : list (list (jsstring * value)))
  (lang : jsstring) (t : list (jsstring * value)) :
  exact_track lang tracks = Some t ->
  subtitle RegExp (VArr (map VObj tracks)) lang = inr (Some (VObj t)).
Proof.
  unfold exact_track, subtitle, find, or_else. rewrite !find_vssId_is.
  destruct (List.find (has_vssId (js "." ++ lang)) tracks) as [t1|].
  - now intros [= ->].
  - cbn. intros ->. reflexivity.
Qed.

End SearchResult.

Lemma selected_track_witness :
  exists l members v,
    VArr [VNum 1 0; VObj [(js "vssId", VStr (js "a.en"))]] = VArr l
    /\ In (VObj [(js "vssId", VStr (js "a.en"))]) l
    /\ VObj [(js "vssId", VStr (js "a.en"))] = VObj members
    /\ lookup (js "vssId") members = Some (VStr v)
    /\ (v = js "." ++ js "en" \/ v = js "a." ++ js "en"
        \/ matches Reference.RegExp_plain (js "." ++ js "en") v = inr true).
Proof.
  exact (@selected_track_is_from_manifest Reference.RegExp_plain
           (VArr [VNum 1 0; VObj [(js "vssId", VStr (js "a.en"))]])
           (js "en") (VObj [(js "vssId", VStr (js "a.en"))]) eq_refl).
Defined.

Lemma null_track_witness :
  subtitle Reference.RegExp_plain
    (VArr (map VObj [[(js "vssId", VStr (js ".fr"))]]
           ++ VNull :: [VObj [(js "vssId", VStr (js ".en"))]]))
    (js "en")
  = inl TypeError.
Proof.
  exact (@null_track_throws Reference.RegExp_plain
           [[(js "vssId", VStr (js ".fr"))]]
           [VObj [(js "vssId", VStr (js ".en"))]] (js "en") eq_refl).
Defined.

(* ----------------------------------------------------------------- *)
(** ** A selected track without a URL *)

Section NoFallback.
Variable RegExp : jsstring -> option regex.
Variable he_decode : jsstring -> jsstring.
Variable striptags : jsstring -> jsstring.
Variable net : value -> option jsstring.

(** X14: the search settles on one track before its URL is looked at.  When
    the manifest of the supplied page is an array of track objects and the
    first track with the [vssId] [.lang] (else the first with [a.lang]) has
    no [baseUrl], or a falsy one, [getSubtitles] warns that the captions
    could not be found and returns the empty list: it makes no request and
    does not go on to another track of that language. *)
Theorem track_without_url_is_not_skipped :
  forall (o : Index.Options) (page : jsstring) (m : rmatch)
         (tracks : list (list (jsstring * value)))
         (t : list (jsstring * value)),
    Index.pageHtml o = Some page ->
    includes (js "captionTracks") page = true ->
    exec Index.captionTracksRegex page = Some m ->
    JSON_parse (group 1 m) = Some (VArr (map VObj tracks)) ->
    exact_track (Index.lang_of o) tracks = Some t ->
    truthy_opt (lookup (js "baseUrl") t) = false ->
    run net (Index.getSubtitles RegExp he_decode striptags o)
    = ([Warned (js "Could not find " ++ Index.lang_of o ++ js " captions for "
                   ++ Index.videoID o)],
       inr []).
Proof.
  intros o page m tracks t Hpage Hinc Hm Hjson Ht Hurl.
  unfold Index.getSubtitles, Index.getYouTubePageHTML. rewrite Hpage.
  pose proof (includes_truthy _ _ Hinc eq_refl) as Hne.
  destruct page as [|c page]; [discriminate|].
  cbn [Effects.bind]. unfold Index.subtitlesOfPage.
  rewrite Hinc, Hm. cbn [negb]. cbv zeta. rewrite Hjson.
  rewrite (subtitle_exact RegExp _ _ Ht). cbn [lift Effects.bind].
  unfold baseUrl_of, field.
  destruct (lookup (js "baseUrl") t) as [u|]; [|reflexivity].
  cbn [truthy_opt] in Hurl. rewrite Hurl. reflexivity.
Qed.

End NoFallback.

Lemma track_without_url_witness :
  run (fun _ => None)
    (Index.getSubtitles Reference.RegExp_plain Reference.decode_xml
       (Reference.strip_tags false)
       (Index.mkOptions (js "v1") None
          (Some (jsq "{'captionTracks':[{'vssId':'.en'},{'vssId':'.en','baseUrl':'u'}]}"))
          None))
  = ([Warned (js "Could not find en captions for v1")], inr []).
Proof.
  eapply (@track_without_url_is_not_skipped Reference.RegExp_plain
            Reference.decode_xml (Reference.strip_tags false) (fun _ => None)
            (Index.mkOptions (js "v1") None
               (Some (jsq "{'captionTracks':[{'vssId':'.en'},{'vssId':'.en','baseUrl':'u'}]}"))
               None)
            _ _
            [[(js "vssId", VStr (js ".en"))];
             [(js "vssId", VStr (js ".en")); (js "baseUrl", VStr (js "u"))]]
            [(js "vssId", VStr (js ".en"))]);
    vm_compute; reflexivity.
Defined.

(* ----------------------------------------------------------------- *)
(** ** The sibling revision: the download URL *)

Section DownloadUrl.
Variable RegExp : jsstring -> option regex.
Variable he_decode : jsstring -> jsstring.
Variable striptags : jsstring -> jsstring.
Variable net : value -> option jsstring.

Lemma urlOfPage_outcome (videoID : option jsstring) (lang html : jsstring)
  (trace : list event) (v : value) :
  run net (Sibling.urlOfPage RegExp videoID lang html) = (trace, inr v) ->
  (v = VNull /\ exists msg, trace = [Warned msg])
  \/ (truthy v = true /\ trace = []).
Proof.
  unfold Sibling.urlOfPage.
  destruct (negb (includes (js "captionTracks") html)).
  { intros [= <- <-]. left. eauto. }
  destruct (exec Sibling.captionTracksRegex html) as [m|].
  2:{ intros [= <- <-]. left. eauto. }
  cbv zeta. destruct (JSON_parse (group 2 m)) as [tracks|]; [|discriminate].
  destruct (subtitle RegExp tracks lang) as [e|found]; [discriminate|].
  cbn [lift Effects.bind].
  destruct (baseUrl_of found) as [u|].
  2:{ intros [= <- <-]. left. eauto. }
  destruct (truthy u) eqn:Hu.
  - intros [= <- <-]. now right.
  - intros [= <- <-]. left. eauto.
Qed.

(** X15: what [getSubtitlesDownloadUrl] resolves to is either [null], and
    then exactly one warning was written to the console, or a truthy value
    (the supplied URL or the [baseUrl] of the selected track), and then
    nothing was written; in both cases it made one request at most, and that
    one before the warning. *)
Theorem download_url_is_null_with_warning_or_truthy :
  forall (o : Sibling.Options) (trace : list event) (v : value),
    run net (Sibling.getSubtitlesDownloadUrl RegExp o) = (trace, inr v) ->
    exists requests,
      length requests <= 1 /\ forallb is_request requests = true
      /\ ((v = VNull /\ exists msg, trace = requests ++ [Warned msg])
          \/ (truthy v = true /\ trace = requests)).
Proof.
  intros o trace v.
  unfold Sibling.getSubtitlesDownloadUrl, Sibling.getCaptionDownloadUrl.
  assert (Hpage : forall videoID html,
    run net (Sibling.urlOfPage RegExp videoID (Sibling.lang_of o) html)
    = (trace, inr v) ->
    exists requests,
      length requests <= 1 /\ forallb is_request requests = true
      /\ ((v = VNull /\ exists msg, trace = requests ++ [Warned msg])
          \/ (truthy v = true /\ trace = requests))).
  { intros videoID html H. exists []. split; [cbn; lia|]. split; [reflexivity|].
    apply urlOfPage_outcome in H as [[-> [msg ->]]|[Hv ->]];
      [left; split; [reflexivity | now exists msg] | now right]. }
  assert (Hfetch : forall videoID url,
    run net (Fetch url (fun html =>
               Sibling.urlOfPage RegExp videoID (Sibling.lang_of o) html))
    = (trace, inr v) ->
    exists requests,
      length requests <= 1 /\ forallb is_request requests = true
      /\ ((v = VNull /\ exists msg, trace = requests ++ [Warned msg])
          \/ (truthy v = true /\ trace = requests))).
  { intros videoID url. cbn [run].
    destruct (net url) as [html|]; [|discriminate].
    destruct (run net (Sibling.urlOfPage RegExp videoID (Sibling.lang_of o)
                         html)) as [t r] eqn:E.
    intros [= <- ->]. exists [Fetched url].
    split; [cbn; lia|]. split; [reflexivity|].
    apply urlOfPage_outcome in E as [[-> [msg ->]]|[Hv ->]];
      [left; split; [reflexivity | now exists msg] | now right]. }
  assert (Hnone : run net (Warn (js "No video ID provided") (Ret VNull))
                  = (trace, inr v) ->
    exists requests,
      length requests <= 1 /\ forallb is_request requests = true
      /\ ((v = VNull /\ exists msg, trace = requests ++ [Warned msg])
          \/ (truthy v = true /\ trace = requests))).
  { intros [= <- <-]. exists []. split; [cbn; lia|]. split; [reflexivity|].
    left. split; [reflexivity|]. now eexists. }
  destruct (Sibling.captionDownloadUrl o) as [[|c url]|].
  2:{ intros [= <- <-]. exists []. split; [cbn; lia|]. split; [reflexivity|].
      now right. }
  all: destruct (Sibling.pageHtml o) as [[|c' html]|]; try apply Hpage.
  all: destruct (Sibling.videoID o) as [[|c'' id]|];
    try exact Hnone; apply Hfetch.
Qed.

(** X16: with a download URL supplied, the sibling [getSubtitles] makes one
    request, to that URL, and parses the answer as the transcript; the page
    markup and the video identifier are not looked at, and none of the
    warnings or exceptions of the page path can occur. *)
Theorem supplied_url_bypasses_the_page :
  forall (o : Sibling.Options) (url : jsstring),
    Sibling.captionDownloadUrl o = Some url ->
    truthy_str url = true ->
    run net (Sibling.getSubtitles RegExp he_decode striptags o)
    = match net (VStr url) with
      | Some transcript =>
          (Fetched (VStr url) :: flat_map warning_of (candidates transcript),
           inr (flat_map (entry_of he_decode striptags) (candidates transcript)))
      | None => ([Fetched (VStr url)], inl Rejected)
      end.
Proof.
  intros o url Hurl Hne. destruct url as [|c url]; [discriminate|].
  unfold Sibling.getSubtitles, Sibling.getCaptionDownloadUrl. rewrite Hurl.
  cbn [Effects.bind truthy truthy_str negb run].
  destruct (net (VStr (c :: url))) as [transcript|]; [|reflexivity].
  now rewrite run_lines.
Qed.

End DownloadUrl.

Lemma download_url_witness :
  exists requests,
    length requests <= 1 /\ forallb is_request requests = true
    /\ ((VNull = VNull
         /\ exists msg,
              [Fetched (VStr (js "https://m.youtube.com/watch?v=v1"));
               Warned (js "No captions found for video: v1")]
              = requests ++ [Warned msg])
        \/ (truthy VNull = true
            /\ [Fetched (VStr (js "https://m.youtube.com/watch?v=v1"));
                Warned (js "No captions found for video: v1")] = requests)).
Proof.
  exact (@download_url_is_null_with_warning_or_truthy Reference.RegExp_plain
           (fun _ => Some (js "<html>"))
           (Sibling.mkOptions (Some (js "v1")) None None None) _ _ eq_refl).
Defined.

Lemma supplied_url_witness :
  run (fun _ => Some (jsq "<text start='1' dur='2'>Hi</text>"))
    (Sibling.getSubtitles Reference.RegExp_plain Reference.decode_xml
       (Reference.strip_tags false)
       (Sibling.mkOptions None None (Some (js "ignored")) (Some (js "u"))))
  = ([Fetched (VStr (js "u"))],
     inr [mkSubtitle (js "1") (js "2") (js "Hi")]).
Proof.
  exact (@supplied_url_bypasses_the_page Reference.RegExp_plain
           Reference.decode_xml (Reference.strip_tags false)
           (fun _ => Some (jsq "<text start='1' dur='2'>Hi</text>"))
           (Sibling.mkOptions None None (Some (js "ignored")) (Some (js "u")))
           (js "u") eq_refl eq_refl).
Defined.

(* ----------------------------------------------------------------- *)
(** ** How many requests a call makes *)

Section Requests.
Variable RegExp : jsstring -> option regex.
Variable he_decode : jsstring -> jsstring.
Variable striptags : jsstring -> jsstring.
Variable net : value -> option jsstring.

Lemma warnings_hold_no_request (l : list jsstring) :
  filter is_request (flat_map warning_of l) = [].
Proof.
  induction l as [|line l IH]; [reflexivity|].
  cbn [flat_map]. rewrite filter_app, IH, app_nil_r. unfold warning_of.
  now destruct (timing_found line).
Qed.

Lemma subtitlesOfPage_requests (videoID lang data : jsstring) :
  length (filter is_request
            (fst (run net (Index.subtitlesOfPage RegExp he_decode striptags
                             videoID lang data)))) <= 1.
Proof.
  unfold Index.subtitlesOfPage.
  destruct (negb (includes (js "captionTracks") data)); [cbn; lia|].
  destruct (exec Index.captionTracksRegex data) as [m|]; [|cbn; lia].
  cbv zeta. destruct (JSON_parse (group 1 m)) as [tracks|]; [|cbn; lia].
  destruct (subtitle RegExp tracks lang) as [e|found]; [cbn; lia|].
  cbn [lift Effects.bind].
  destruct (baseUrl_of found) as [url|]; [|cbn; lia].
  destruct (truthy url); [|cbn; lia].
  cbn [run]. destruct (net url) as [transcript|]; [|cbn; lia].
  rewrite run_lines. cbn [fst filter is_request].
  rewrite warnings_hold_no_request. cbn; lia.
Qed.

(** X17: a call of [getSubtitles] or of [getVideoDetails] makes two requests
    at most, one for the page and one for the transcript, and one at most
    when a non-empty page is supplied. *)
Theorem requests_are_bounded :
  forall (o : Index.Options),
    length (filter is_request
              (fst (run net (Index.getSubtitles RegExp he_decode striptags o))))
    <= match Index.pageHtml o with Some (_ :: _) => 1 | _ => 2 end
    /\ length (filter is_request
                 (fst (run net (Index.getVideoDetails RegExp he_decode
                                  striptags o))))
       <= match Index.pageHtml o with Some (_ :: _) => 1 | _ => 2 end.
Proof.
  intros o.
  set (bound := match Index.pageHtml o with Some (_ :: _) => 1 | _ => 2 end).
  assert (H : length (filter is_request
                        (fst (run net (Index.getSubtitles RegExp he_decode
                                         striptags o)))) <= bound).
  { subst bound. unfold Index.getSubtitles, Index.getYouTubePageHTML.
    assert (Hfetch :
      length (filter is_request
                (fst (run net
                        (Effects.bind
                           (let pageUrl := Index.pageUrl_of (Index.videoID o) in
                            let requestUrl :=
                              Index.requestUrl_of (Index.proxy o) pageUrl in
                            if negb (truthy_str requestUrl)
                            then Throw (Error (js "Proxy function didn't return a valid url"))
                            else Fetch (VStr requestUrl) (fun html => Ret html))
                           (fun data =>
                              Index.subtitlesOfPage RegExp he_decode striptags
                                (Index.videoID o) (Index.lang_of o) data)))))
      <= 2).
    { cbv zeta. rewrite requestUrl_truthy. cbn [negb Effects.bind run].
      destruct (net _) as [html|]; [|cbn; lia].
      pose proof (subtitlesOfPage_requests (Index.videoID o) (Index.lang_of o)
                    html) as Hp.
      destruct (run net (Index.subtitlesOfPage RegExp he_decode striptags
                           (Index.videoID o) (Index.lang_of o) html))
        as [t r].
      cbn [fst filter is_request length] in *. lia. }
    destruct (Index.pageHtml o) as [[|c html]|]; try exact Hfetch.
    cbn [Effects.bind]. apply subtitlesOfPage_requests. }
  split; [exact H|].
  assert (E : run net (Index.getSubtitles RegExp he_decode striptags o)
              = outcome_map Index.subtitles
                  (run net (Index.getVideoDetails RegExp he_decode striptags o))).
  { unfold Index.getSubtitles, Index.getVideoDetails.
    apply run_bind_ext. intros data. apply subtitlesOfPage_agrees. }
  rewrite E in H. exact H.
Qed.

End Requests.

(* ----------------------------------------------------------------- *)
(** ** The text of a caption *)

Lemma exec_chr_prefix (p : codeunit -> bool) (r : regex)
  (before from : jsstring) :
  forallb (fun x => negb (p x)) before = true ->
  exec (Seq (Chr p) r) (before ++ from)
  = option_map (shifts (length before)) (exec (Seq (Chr p) r) from).
Proof.
  induction before as [|x before IH]; intros H.
  - cbn [app length shifts]. now destruct (exec (Seq (Chr p) r) from).
  - cbn [forallb] in H. apply andb_true_iff in H as [Hx H].
    apply negb_true_iff in Hx.
    cbn [app exec]. unfold match_here at 1. rewrite rx_Seq, rx_Chr, Hx.
    rewrite (IH H). cbn [length shifts].
    now destruct (exec (Seq (Chr p) r) from).
Qed.

Lemma exec_chr_absent (p : codeunit -> bool) (r : regex) (s : jsstring) :
  forallb (fun x => negb (p x)) s = true ->
  exec (Seq (Chr p) r) s = None.
Proof.
  intros H. rewrite <- (app_nil_r s). now rewrite exec_chr_prefix.
Qed.

Lemma replace_all_no_match (r : regex) (by_ s : jsstring) :
  exec r s = None -> replace_all r by_ s = s.
Proof. intros H. unfold replace_all. cbn [replace_all_fuel]. now rewrite H. Qed.

Lemma other_than_absent (c : codeunit) (s : jsstring) :
  forallb (other_than c) s = true ->
  forallb (fun x => negb (N.eqb c x)) s = true.
Proof.
  induction s as [|x s IH]; [reflexivity|]. cbn [forallb].
  intros H. apply andb_true_iff in H as [Hx H].
  unfold other_than in Hx. rewrite N.eqb_sym, Hx. exact (IH H).
Qed.

Lemma amp_absent (s : jsstring) :
  forallb (other_than (cu "&")) s = true ->
  replace_all ampRegex (js "&") s = s.
Proof.
  intros H. apply replace_all_no_match. unfold ampRegex.
  apply exec_chr_absent. now apply other_than_absent.
Qed.

Lemma shifts_index (n : nat) (m : rmatch) :
  m_index (shifts n m) = n + m_index m
  /\ m_text (shifts n m) = m_text m /\ m_rest (shifts n m) = m_rest m.
Proof.
  induction n as [|n (Hi & Ht & Hr)]; [easy|].
  cbn [shifts shift m_index m_text m_rest]. rewrite Hi. auto.
Qed.

Lemma plus_to_end (p : codeunit -> bool) (k : mcont) (s : jsstring)
  (c : captures) :
  truthy_str s = true -> forallb p s = true ->
  (exists r, k [] c = Some r) ->
  rx (Plus true (Chr p)) s c k = k [] c.
Proof.
  intros Hne Hs [r Hr]. destruct s as [|x s]; [discriminate|].
  cbn [forallb] in Hs. apply andb_true_iff in Hs as [Hx Hs].
  unfold Plus. rewrite rx_Seq, rx_Chr, Hx, rx_Star.
  rewrite star_loop_chr by lia. rewrite Hr.
  rewrite <- (app_nil_r s). now apply star_chr_greedy_all.
Qed.

Lemma tag_to_end (post : jsstring) :
  truthy_str post = true ->
  forallb (other_than (cu ">")) post = true ->
  rx tagRegex (cu "<" :: post) [] (fun s1 c1 => Some (s1, c1))
  = Some ([], [(1, [])]).
Proof.
  intros Hne Hpost.
  set (k0 := fun (s1 : jsstring) (c1 : captures) => Some (s1, c1)).
  set (k1 := fun (s1 : jsstring) (c1 : captures) =>
               rx (Group 1 (Alt (Chr (N.eqb (cu ">"))) Eoi)) s1 c1 k0).
  assert (Hend : k1 [] [] = Some ([], [(1, [])])) by reflexivity.
  assert (Hall : forall s, truthy_str s = true ->
                           forallb (other_than (cu ">")) s = true ->
                           rx (Plus true (Chr (other_than (cu ">")))) s [] k1
                           = Some ([], [(1, [])])).
  { intros s H1 H2. rewrite plus_to_end; eauto. }
  unfold tagRegex. rewrite rx_Seq, rx_Chr.
  change (N.eqb (cu "<") (cu "<")) with true. cbv iota.
  rewrite rx_Seq. unfold Opt.
  change (rx (Alt (Chr (N.eqb (cu "/"))) Eps) post []
            (fun s1 c1 => rx (Seq (Plus true (Chr (other_than (cu ">")))) 
                                  (Group 1 (Alt (Chr (N.eqb (cu ">"))) Eoi)))
                             s1 c1 k0))
    with (match rx (Chr (N.eqb (cu "/"))) post []
                  (fun s1 c1 => rx (Plus true (Chr (other_than (cu ">")))) s1 c1 k1)
          with
          | Some m => Some m
          | None => rx (Plus true (Chr (other_than (cu ">")))) post [] k1
          end).
  rewrite (Hall post Hne Hpost).
  destruct post as [|x post]; [discriminate|]. rewrite rx_Chr.
  destruct (N.eqb (cu "/") x); [|reflexivity].
  destruct post as [|y post]; [reflexivity|].
  cbn [forallb] in Hpost. apply andb_true_iff in Hpost as [_ Hpost].
  now rewrite (Hall (y :: post) eq_refl Hpost).
Qed.

Section CaptionText.
Variable he_decode : jsstring -> jsstring.
Variable striptags : jsstring -> jsstring.

(** X18: the three replacements before decoding leave plain text alone.  For
    a segment that opens with a non-empty attribute run without line
    terminators and whose body holds no [<], no [>] and no [&], the text
    handed to the decoder is the body itself, so the caption text is
    [striptags(he.decode(body))]. *)
Theorem plain_body_is_kept :
  forall (attrs body : jsstring),
    truthy_str attrs = true ->
    forallb any_char attrs = true ->
    forallb (other_than (cu "<")) body = true ->
    forallb (other_than (cu ">")) body = true ->
    forallb (other_than (cu "&")) body = true ->
    htmlText (segment attrs body) = body
    /\ text_of he_decode striptags (segment attrs body)
       = striptags (he_decode body).
Proof.
  intros attrs body Hne Hattrs Hlt Hgt Hamp.
  assert (H : htmlText (segment attrs body) = body).
  { unfold htmlText, segment.
    rewrite (opening_tag_removed _ _ Hne Hattrs Hgt).
    rewrite (amp_absent _ Hamp).
    apply replace_all_no_match. unfold tagRegex.
    apply exec_chr_absent. now apply other_than_absent. }
  split; [exact H|]. unfold text_of. now rewrite H.
Qed.

(** X19: an opening angle bracket that is never closed cuts the caption.
    When the body is plain text, then [<], then a non-empty rest that holds
    no [>] and no [&], the tag pattern matches from that [<] to the end of
    the line, and the text handed to the decoder is what precedes the
    [<]. *)
Theorem unclosed_angle_cuts_the_text :
  forall (attrs before after : jsstring),
    truthy_str attrs = true ->
    forallb any_char attrs = true ->
    forallb (other_than (cu "<")) before = true ->
    forallb (other_than (cu ">")) before = true ->
    forallb (other_than (cu "&")) before = true ->
    truthy_str after = true ->
    forallb (other_than (cu ">")) after = true ->
    forallb (other_than (cu "&")) after = true ->
    htmlText (segment attrs (before ++ cu "<" :: after)) = before
    /\ text_of he_decode striptags (segment attrs (before ++ cu "<" :: after))
       = striptags (he_decode before).
Proof.
  intros attrs before after Hne Hattrs Hlt Hgt Hamp Hafter Hgt' Hamp'.
  assert (H : htmlText (segment attrs (before ++ cu "<" :: after)) = before).
  { unfold htmlText, segment.
    rewrite opening_tag_removed; [|exact Hne|exact Hattrs|].
    2:{ rewrite forallb_app. cbn [forallb]. now rewrite Hgt, Hgt'. }
    rewrite amp_absent.
    2:{ rewrite forallb_app. cbn [forallb]. now rewrite Hamp, Hamp'. }
    unfold replace_all. cbn [replace_all_fuel]. unfold tagRegex at 1.
    rewrite exec_chr_prefix by now apply other_than_absent.
    fold tagRegex. cbn [exec]. unfold match_here.
    rewrite (tag_to_end _ Hafter Hgt'). cbn [option_map].
    destruct (shifts_index (length before)
                (mkMatch 0 (firstn (length (cu "<" :: after) - length (@nil codeunit))
                              (cu "<" :: after)) [] [(1, [])]))
      as (Hi & Ht & Hr).
    rewrite Hi, Ht, Hr. cbn [m_index m_text m_rest length Nat.sub firstn].
    rewrite Nat.add_0_r, firstn_app, firstn_all, Nat.sub_diag. cbn [firstn].
    assert (Hnil : forall n, replace_all_fuel n tagRegex [] [] = [])
      by (intros [|n]; reflexivity).
    rewrite Hnil. cbn [app]. now rewrite !app_nil_r. }
  split; [exact H|]. unfold text_of. now rewrite H.
Qed.

End CaptionText.

Lemma plain_body_witness :
  htmlText (segment (jsq " start='1' dur='2'") (js "Hello world"))
  = js "Hello world"
  /\ text_of Reference.decode_xml (Reference.strip_tags false)
       (segment (jsq " start='1' dur='2'") (js "Hello world"))
     = Reference.strip_tags false (Reference.decode_xml (js "Hello world")).
Proof.
  exact (@plain_body_is_kept Reference.decode_xml (Reference.strip_tags false)
           (jsq " start='1' dur='2'") (js "Hello world")
           eq_refl eq_refl eq_refl eq_refl eq_refl).
Defined.

Lemma unclosed_angle_witness :
  htmlText (segment (jsq " start='1' dur='2'") (js "1 " ++ cu "<" :: js " 2"))
  = js "1 "
  /\ text_of Reference.decode_xml (Reference.strip_tags false)
       (segment (jsq " start='1' dur='2'") (js "1 " ++ cu "<" :: js " 2"))
     = Reference.strip_tags false (Reference.decode_xml (js "1 ")).
Proof.
  exact (@unclosed_angle_cuts_the_text Reference.decode_xml
           (Reference.strip_tags false)
           (jsq " start='1' dur='2'") (js "1 ") (js " 2")
           eq_refl eq_refl eq_refl eq_refl eq_refl eq_refl eq_refl eq_refl).
Defined.

(* ----------------------------------------------------------------- *)
(** ** Segments with and without the timing attributes *)




Section Document.
Variable he_decode : jsstring -> jsstring.
Variable striptags : jsstring -> jsstring.
Variable net : value -> option jsstring.



End Document.


